(** * SMRITI AI server: admission control and the shared Whisper model

    A shallow embedding of [utils/middleware.py] (the per-address sliding
    window of [rate_limit_by_ip], [require_json]) and of
    [routes/voice_assistant.py] (the lazily loaded model, its idle sweep, the
    [/transcribe] and [/health] handlers), with the properties the
    specification states about them.

    Conventions of the embedding.
    - Clock readings ([time.time()]) are integers of type [Z]; the code only
      subtracts and compares them, which is exact on [Z].
    - Python dictionaries keyed by strings are [gmap string _].
    - What the environment decides (whether [whisper.load_model] succeeds,
      what the inference returns, whether a file operation fails) is an
      explicit argument of the function that asks for it.
    - Logging calls have no effect on the modelled state and are omitted. *)

From stdpp Require Import base numbers list sorting strings gmap.
From Stdlib Require Import ZArith Lia.
From Stdlib Require Import Ascii.
From Stdlib Require String.

Local Open Scope Z_scope.
#[local] Set Warnings "-register-all".

(** ** HTTP responses

    Every handler ends in [jsonify(...), code]; the payloads the code builds
    are enumerated, the status code is kept as the integer the code writes. *)

Inductive payload : Type :=
  | ContentTypeError                      (* 'Content-Type must be application/json' *)
  | RateLimitExceeded (max_requests per_seconds : Z)
  | ModelNotAvailable                     (* 'Whisper model not available. Please try again.' *)
  | MissingAudioData                      (* 'Missing audio_data field' *)
  | AudioTooLarge                         (* 'Audio file too large. Maximum size is 5MB.' *)
  | InvalidBase64                         (* 'Invalid base64 audio data' *)
  | CouldNotTranscribe                    (* 'Could not transcribe audio. Please try again.' *)
  | Transcription (transcribed_text detected_language language_name : string)
  | Health (model_status : string) (supported_languages : nat)
  | ServiceUnhealthy
  | Plain.                                (* any other handler's success body *)

Record response : Type := Response { body : payload; status_code : Z }.

Definition jsonify (p : payload) : response := Response p 200.

(** ** JSON bodies and requests *)

Inductive json : Type :=
  | JNull
  | JBool (b : bool)
  | JNum (n : Z)
  | JStr (s : string)
  | JArr (items : list json)
  | JObj (members : list (string * json)).   (* parsed dict, keys distinct *)
(* Numbers are kept as integers: the code never looks inside one. *)

(** What the code reads of Flask's [request]. [get_json] is [None] when
    [request.get_json()] raises (a body that is not JSON). *)
Record request : Type :=
  Request { is_json : bool; remote_addr : string; get_json : option json }.

(** ** [utils/middleware.py]: [require_json] and [rate_limit_by_ip] *)

Module Middleware.

Definition require_json {S : Type} (f : S → S * response) (req : request) (s : S)
  : S * response :=
  if negb (is_json req) then (s, Response ContentTypeError 400) else f s.

(** [request_counts.get(client_ip, [])] *)
Definition get (request_counts : gmap string (list Z)) (client_ip : string) : list Z :=
  default [] (request_counts !! client_ip).

(** The comprehension [[timestamp for timestamp in ... if timestamp > cutoff_time]]. *)
Definition clean (cutoff_time : Z) (w : list Z) : list Z :=
  filter (λ timestamp, cutoff_time < timestamp) w.

Section Decorator.
Context {S : Type}.
Variables max_requests per_seconds : Z.
(** The wrapped view function, acting on the rest of the server state. *)
Variable f : S → S * response.

Definition decorated_function (client_ip : string) (current_time : Z)
    (request_counts : gmap string (list Z)) (s : S)
  : gmap string (list Z) * S * response :=
  let cutoff_time := current_time - per_seconds in
  let request_counts :=
    <[client_ip := clean cutoff_time (get request_counts client_ip)]> request_counts in
  if bool_decide (max_requests ≤ Z.of_nat (length (get request_counts client_ip))) then
    (request_counts, s, Response (RateLimitExceeded max_requests per_seconds) 429)
  else
    let request_counts :=
      if bool_decide (request_counts !! client_ip = None)
      then <[client_ip := []]> request_counts else request_counts in
    let request_counts := alter (λ w, w ++ [current_time]) client_ip request_counts in
    let '(s, r) := f s in
    (request_counts, s, r).
End Decorator.

(** The admission decision on its own: the decorator around a view that
    does nothing, reporting whether the view was reached. *)
Definition allow (max_requests per_seconds : Z) (client_ip : string) (now : Z)
    (request_counts : gmap string (list Z)) : gmap string (list Z) * bool :=
  let '(rc, reached, _) :=
    decorated_function max_requests per_seconds
      (λ _ : bool, (true, jsonify Plain)) client_ip now request_counts false in
  (rc, reached).

(** A sequence of checks against one decorator instance, oldest first. *)
Fixpoint run (max_requests per_seconds : Z) (calls : list (string * Z))
    (request_counts : gmap string (list Z)) : gmap string (list Z) * list bool :=
  match calls with
  | [] => (request_counts, [])
  | (ip, now) :: calls =>
      let '(rc, b) := allow max_requests per_seconds ip now request_counts in
      let '(rc, bs) := run max_requests per_seconds calls rc in
      (rc, b :: bs)
  end.

(** The timestamps the limiter recorded for [ip]: the times of its
    accepted checks, oldest first. *)
Definition recorded (ip : string) (calls : list (string * Z)) (decisions : list bool)
  : list Z :=
  omap (λ '((ip', t), b), if b && bool_decide (ip' = ip) then Some t else None)
       (zip calls decisions).

(** The same store seen from a clock shifted by [d]. *)
Definition shift (d : Z) (request_counts : gmap string (list Z)) : gmap string (list Z) :=
  fmap (M := list) (Z.add d) <$> request_counts.

End Middleware.

(** ** The Python operations the handler applies to a parsed body *)

Module Py.

(** [needle in haystack] on two [str]: substring search. *)
Fixpoint substring_at (needle haystack : string) : bool :=
  match needle, haystack with
  | EmptyString, _ => true
  | String a needle, String b haystack =>
      bool_decide (a = b) && substring_at needle haystack
  | String _ _, EmptyString => false
  end.

Fixpoint str_contains (needle haystack : string) : bool :=
  substring_at needle haystack ||
  match haystack with
  | EmptyString => false
  | String _ haystack => str_contains needle haystack
  end.

Definition is_str (key : string) (v : json) : bool :=
  match v with JStr s => bool_decide (s = key) | _ => false end.

(** [d.get(key)] on a dict given by its items. *)
Fixpoint dict_get {A} (key : string) (members : list (string * A)) : option A :=
  match members with
  | [] => None
  | (k, v) :: members => if bool_decide (k = key) then Some v else dict_get key members
  end.

(** [key in data]; [None] is the [TypeError] raised when [data] is not
    iterable. *)
Definition contains (key : string) (data : json) : option bool :=
  match data with
  | JObj members => Some (bool_decide (is_Some (dict_get key members)))
  | JArr items => Some (existsb (is_str key) items)
  | JStr s => Some (str_contains key s)
  | JNull | JBool _ | JNum _ => None
  end.

(** [data[key]] with a [str] key; [None] is the [TypeError] (list and
    string indices must be integers, the rest is not subscriptable) or the
    [KeyError]. *)
Definition getitem (data : json) (key : string) : option json :=
  match data with
  | JObj members => dict_get key members
  | _ => None
  end.

(** [len(v)]; [None] is the [TypeError] for objects without a length. *)
Definition len (v : json) : option Z :=
  match v with
  | JStr s => Some (Z.of_nat (String.length s))
  | JArr items => Some (Z.of_nat (length items))
  | JObj members => Some (Z.of_nat (length members))
  | JNull | JBool _ | JNum _ => None
  end.

(** [str.isspace] on the code points below 256. *)
Definition isspace (c : ascii) : bool :=
  let n := Ascii.nat_of_ascii c in
  ((9 <=? n) && (n <=? 13) || (28 <=? n) && (n <=? 32) ||
   (n =? 133) || (n =? 160))%nat.

Fixpoint lstrip (s : list ascii) : list ascii :=
  match s with
  | c :: s' => if isspace c then lstrip s' else s
  | [] => []
  end.

(** [s.strip()], on text of code points below 256 as [isspace] is. *)
Definition strip (s : string) : string :=
  String.string_of_list_ascii
    (rev (lstrip (rev (lstrip (String.list_ascii_of_string s))))).

End Py.

(** ** The module globals of [routes/voice_assistant.py] *)

Module Whisper.

(** A loaded model object, by an identifier. *)
Definition handle : Type := nat.

Record globals : Type := Globals { model : option handle; last_used : Z }.

Definition SUPPORTED_LANGUAGES : list (string * string) :=
  [ ("en", "English"); ("hi", "Hindi"); ("bn", "Bengali"); ("te", "Telugu");
    ("ta", "Tamil"); ("gu", "Gujarati"); ("kn", "Kannada"); ("ml", "Malayalam");
    ("pa", "Punjabi"); ("or", "Odia"); ("mr", "Marathi"); ("as", "Assamese");
    ("ur", "Urdu") ]%string.

(** [loaded] is what [whisper.load_model("tiny")] does in this call: it
    returns a model, or raises ([None]). *)
Definition load_whisper_model (loaded : option handle) (g : globals) : globals * bool :=
  match loaded with
  | Some m => (Globals (Some m) (last_used g), true)
  | None => (g, false)
  end.

(** The body runs under [model_lock]. *)
Definition get_model (loaded : option handle) (now : Z) (g : globals)
  : globals * option handle :=
  let '(g, ok) :=
    match model g with
    | None => load_whisper_model loaded g
    | Some _ => (g, true)
    end in
  if ok then (Globals (model g) now, model g) else (g, None).

Definition cleanup_model_if_idle (now : Z) (g : globals) : globals :=
  if bool_decide (model g ≠ None) && bool_decide (600 < now - last_used g) then
    (* with model_lock: *)
    if bool_decide (model g ≠ None) then Globals None (last_used g) else g
  else g.

Definition is_supported_language (lang_code : string) : bool :=
  bool_decide (is_Some (Py.dict_get lang_code SUPPORTED_LANGUAGES)).

(** No call below [get_model] raises in this model, so the [except] branch
    of the handler (503, 'Service unhealthy') is never taken. *)
Definition health_check (loaded : option handle) (now : Z) (g : globals)
  : globals * response :=
  let '(g, whisper_model) := get_model loaded now g in
  let model_status :=
    match whisper_model with Some _ => "loaded" | None => "not_loaded" end%string in
  (g, jsonify (Health model_status (length SUPPORTED_LANGUAGES))).

End Whisper.

(** ** [base64.b64decode]

    The standard library's decoder as the handler calls it: default
    [altchars], [validate=False]. A [str] argument is first encoded as ASCII
    ([ValueError] otherwise), then handed to [binascii.a2b_base64] with
    [strict_mode] off; the loop below follows CPython's implementation of
    that function case by case. Bytes are integers in [0, 256). *)

Module Base64.

Definition BASE64_PAD : Z := 61.   (* '=' *)

(** [table_a2b_base64]: the value of an alphabet character, 255 for every
    other byte. *)
Definition table_a2b_base64 (c : Z) : Z :=
  if (65 <=? c) && (c <=? 90) then c - 65            (* A-Z *)
  else if (97 <=? c) && (c <=? 122) then c - 71      (* a-z *)
  else if (48 <=? c) && (c <=? 57) then c + 4        (* 0-9 *)
  else if c =? 43 then 62                            (* + *)
  else if c =? 47 then 63                            (* / *)
  else 255.

(** Store into an [unsigned char]. *)
Definition uchar (x : Z) : Z := Z.land x 255.

Fixpoint a2b_loop (ascii_data : list Z) (quad_pos leftchar pads : Z)
    (bin_data : list Z) : option (list Z) :=
  match ascii_data with
  | [] =>
      (* after the loop: "Incorrect padding" / "Invalid base64-encoded string" *)
      if quad_pos =? 0 then Some bin_data else None
  | this_ch :: ascii_data =>
      if this_ch =? BASE64_PAD then
        if 2 <=? quad_pos then
          let pads := pads + 1 in
          if 4 <=? quad_pos + pads then Some bin_data        (* goto done *)
          else a2b_loop ascii_data quad_pos leftchar pads bin_data
        else a2b_loop ascii_data quad_pos leftchar pads bin_data
      else
        let this_ch := table_a2b_base64 this_ch in
        if 64 <=? this_ch then a2b_loop ascii_data quad_pos leftchar pads bin_data
        else
          if quad_pos =? 0 then
            a2b_loop ascii_data 1 this_ch 0 bin_data
          else if quad_pos =? 1 then
            a2b_loop ascii_data 2 (Z.land this_ch 15) 0
              (bin_data ++ [uchar (Z.lor (Z.shiftl leftchar 2) (Z.shiftr this_ch 4))])
          else if quad_pos =? 2 then
            a2b_loop ascii_data 3 (Z.land this_ch 3) 0
              (bin_data ++ [uchar (Z.lor (Z.shiftl leftchar 4) (Z.shiftr this_ch 2))])
          else
            a2b_loop ascii_data 0 0 0
              (bin_data ++ [uchar (Z.lor (Z.shiftl leftchar 6) this_ch)])
  end.

Definition a2b_base64 (data : list Z) : option (list Z) := a2b_loop data 0 0 0 [].

Definition code_points (s : string) : list Z :=
  (λ c, Z.of_nat (Ascii.nat_of_ascii c)) <$> String.list_ascii_of_string s.

(** [s.encode('ascii')] *)
Definition encode_ascii (s : string) : option (list Z) :=
  let cs := code_points s in
  if forallb (λ c, c <? 128) cs then Some cs else None.

(** [base64.b64decode(v)] on a parsed JSON value; [None] stands for the
    exception ([binascii.Error], [ValueError], or [TypeError] for an
    argument that is neither [str] nor bytes-like). *)
Definition b64decode (v : json) : option (list Z) :=
  match v with
  | JStr s => encode_ascii s ≫= a2b_base64
  | _ => None
  end.

(** The standard encoding (RFC 4648 alphabet, [=] padding) of a byte
    string, as [base64.b64encode] produces it; the handler never calls it,
    it is the encoding the round trip is stated against. *)
Definition table_b2a_base64 (v : Z) : Z :=
  if v <? 26 then v + 65
  else if v <? 52 then v + 71
  else if v <? 62 then v - 4
  else if v =? 62 then 43
  else 47.

Fixpoint b2a_base64 (bin_data : list Z) : list Z :=
  match bin_data with
  | [] => []
  | [a] =>
      [ table_b2a_base64 (Z.shiftr a 2);
        table_b2a_base64 (Z.shiftl (Z.land a 3) 4);
        BASE64_PAD; BASE64_PAD ]
  | [a; b] =>
      [ table_b2a_base64 (Z.shiftr a 2);
        table_b2a_base64 (Z.lor (Z.shiftl (Z.land a 3) 4) (Z.shiftr b 4));
        table_b2a_base64 (Z.shiftl (Z.land b 15) 2);
        BASE64_PAD ]
  | a :: b :: c :: bin_data =>
      table_b2a_base64 (Z.shiftr a 2)
      :: table_b2a_base64 (Z.lor (Z.shiftl (Z.land a 3) 4) (Z.shiftr b 4))
      :: table_b2a_base64 (Z.lor (Z.shiftl (Z.land b 15) 2) (Z.shiftr c 6))
      :: table_b2a_base64 (Z.land c 63)
      :: b2a_base64 bin_data
  end.

Definition ascii_string (cs : list Z) : string :=
  String.string_of_list_ascii ((λ c, Ascii.ascii_of_nat (Z.to_nat c)) <$> cs).

Definition b64encode (bin_data : list Z) : string := ascii_string (b2a_base64 bin_data).

Definition is_byte (b : Z) : Prop := 0 ≤ b < 256.

(** Facts about all sextets and all pairs of bytes are checked by running
    a test on each of them. *)
Definition below (n : Z) (p : Z → bool) : bool := forallb p (seqZ 0 n).

Definition all_pairs (p : Z → Z → bool) : bool := below 256 (λ a, below 256 (p a)).

Definition is_sextet (v : Z) : bool := (0 <=? v) && (v <? 64).

(** The tables are inverse to each other on sextets; the alphabet is ASCII
    and does not contain [=]. *)
Definition table_test (v : Z) : bool :=
  (table_a2b_base64 (table_b2a_base64 v) =? v)
  && negb (table_b2a_base64 v =? BASE64_PAD)
  && (0 <=? table_b2a_base64 v) && (table_b2a_base64 v <? 128).

(** What the encoder looks up in its table is a sextet. *)
Definition sextet_test (a b : Z) : bool :=
  is_sextet (Z.shiftr a 2)
  && is_sextet (Z.lor (Z.shiftl (Z.land a 3) 4) (Z.shiftr b 4))
  && is_sextet (Z.lor (Z.shiftl (Z.land a 15) 2) (Z.shiftr b 6))
  && is_sextet (Z.land a 63)
  && is_sextet (Z.shiftl (Z.land a 3) 4)
  && is_sextet (Z.shiftl (Z.land a 15) 2).

(** What the decoder computes from the sextets of neighbouring bytes. *)
Definition rebuild_test (a b : Z) : bool :=
  let s2 := Z.lor (Z.shiftl (Z.land a 3) 4) (Z.shiftr b 4) in
  let s3 := Z.lor (Z.shiftl (Z.land a 15) 2) (Z.shiftr b 6) in
  (uchar (Z.lor (Z.shiftl (Z.shiftr a 2) 2) (Z.shiftr s2 4)) =? a)
  && (Z.land s2 15 =? Z.shiftr b 4)
  && (uchar (Z.lor (Z.shiftl (Z.shiftr a 4) 4) (Z.shiftr s3 2)) =? a)
  && (Z.land s3 3 =? Z.shiftr b 6)
  && (uchar (Z.lor (Z.shiftl (Z.shiftr a 6) 6) (Z.land a 63)) =? a)
  && (Z.shiftr (Z.shiftl (Z.land a 3) 4) 4 =? Z.shiftr s2 4)
  && (Z.land (Z.shiftl (Z.land a 3) 4) 15 =? 0)
  && (Z.shiftr (Z.shiftl (Z.land a 15) 2) 2 =? Z.shiftr s3 2).

End Base64.

(** ** The [/transcribe] view *)

Module Transcribe.
Import Whisper.

(** What a call does to the outside, in order. *)
Inductive event : Type :=
  | B64Decode (audio_data : json)
  | TempCreate (path : string)
  | TempWrite (path : string) (audio_bytes : list Z)
  | Infer (m : handle) (path : string) (contents : option (list Z))
  | Unlink (path : string).

(** What the environment answers during one call. *)
Record env : Type := Env {
  time_limiter : Z;                (* [time.time()] in the rate limiter *)
  time_sweep : Z;                  (* ... in [cleanup_model_if_idle] *)
  time_touch : Z;                  (* ... in [get_model] *)
  loaded : option handle;          (* [whisper.load_model("tiny")] *)
  temp_name : option string;       (* name picked by [NamedTemporaryFile], or it raises *)
  write_ok : bool;                 (* [temp_audio.write] returns / raises *)
  close_ok : bool;                 (* leaving the [with] block closes the file *)
  inference : list Z → option (string * string);
                                   (* [transcribe] on a file with these contents:
                                      [result["text"]], [result["language"]], or a raise *)
  unlink_ok : bool                 (* [os.unlink] returns / raises *)
}.

(** Server state seen by the view: the module globals, the files under
    [/tmp], and the log of events. *)
Record world : Type :=
  World { globals : Whisper.globals; tmp : gmap string (list Z); trace : list event }.

Definition log (ev : event) (w : world) : world :=
  World (globals w) (tmp w) (trace w ++ [ev]).

Definition set_tmp (t : gmap string (list Z)) (w : world) : world :=
  World (globals w) t (trace w).

(** From [result["text"]] and [result["language"]] to the 200 response. *)
Definition response_data (text language : string) : response :=
  let transcribed_text := Py.strip text in
  let detected_language :=
    if is_supported_language language then language else "en"%string in
  let language_name :=
    default "English"%string (Py.dict_get detected_language SUPPORTED_LANGUAGES) in
  jsonify (Transcription transcribed_text detected_language language_name).
Global Arguments response_data : simpl never.

(** The body of the inner [try]: the world after it, [temp_audio_path] as
    it stands when the block is left, and the response, [None] when an
    exception leaves the block. [NamedTemporaryFile(delete=False)] creates
    the file under a name that is not taken (a taken name is an error here);
    a failed write leaves the file created (modelled empty) and the path
    unassigned. *)
Definition try_body (e : env) (whisper_model : handle) (audio_bytes : list Z) (w : world)
  : world * option string * option response :=
  match temp_name e with
  | None => (w, None, None)
  | Some name =>
      if bool_decide (is_Some (tmp w !! name)) then (w, None, None)
      else
        let w := log (TempCreate name) (set_tmp (<[name := []]> (tmp w)) w) in
        if negb (write_ok e) then (w, None, None)
        else
          let w := log (TempWrite name audio_bytes)
                     (set_tmp (<[name := audio_bytes]> (tmp w)) w) in
          let temp_audio_path := Some name in
          if negb (close_ok e) then (w, temp_audio_path, None)
          else
            let w := log (Infer whisper_model name (tmp w !! name)) w in
            match tmp w !! name ≫= inference e with
            | None => (w, temp_audio_path, None)
            | Some (text, language) =>
                (w, temp_audio_path, Some (response_data text language))
            end
  end.

(** The [finally] block. *)
Definition finally (e : env) (temp_audio_path : option string) (w : world) : world :=
  match temp_audio_path with
  | Some path =>
      if negb (bool_decide (path = ""%string)) && bool_decide (is_Some (tmp w !! path))
      then
        let w := log (Unlink path) w in
        if unlink_ok e then set_tmp (delete path (tmp w)) w
        else w                                                 (* except: pass *)
      else w
  | None => w
  end.

(** The first two statements of the view, [cleanup_model_if_idle()] and
    [get_model()]: the model the view gets, and the world they leave. *)
Definition acquired (e : env) (w : world) : option handle :=
  (get_model (loaded e) (time_touch e)
     (cleanup_model_if_idle (time_sweep e) (globals w))).2.

Definition after_acquire (e : env) (w : world) : world :=
  World (get_model (loaded e) (time_touch e)
           (cleanup_model_if_idle (time_sweep e) (globals w))).1
        (tmp w) (trace w).

(** The inner [try ... finally]. *)
Definition with_temp_file (e : env) (whisper_model : handle) (audio_bytes : list Z)
    (w : world) : world * option response :=
  let '(w, temp_audio_path, r) := try_body e whisper_model audio_bytes w in
  (finally e temp_audio_path w, r).

Section View.
(** [base64.b64decode], applied to whatever [data['audio_data']] is. *)
Variable b64decode : json → option (list Z).

Definition transcribe_audio (e : env) (req : request) (w : world) : world * response :=
  let failed := Response CouldNotTranscribe 500 in       (* the outer [except] *)
  let g := cleanup_model_if_idle (time_sweep e) (globals w) in
  let '(g, whisper_model) := get_model (loaded e) (time_touch e) g in
  let w := World g (tmp w) (trace w) in
  match whisper_model with
  | None => (w, Response ModelNotAvailable 503)
  | Some whisper_model =>
  match get_json req with
  | None => (w, failed)
  | Some data =>
  match Py.contains "audio_data" data with
  | None => (w, failed)
  | Some false => (w, Response MissingAudioData 400)
  | Some true =>
  match Py.getitem data "audio_data" with
  | None => (w, failed)
  | Some audio_data =>
  match Py.len audio_data with
  | None => (w, failed)
  | Some n =>
      if 5 * 1024 * 1024 <? n then (w, Response AudioTooLarge 413)
      else
        let w := log (B64Decode audio_data) w in
        match b64decode audio_data with
        | None => (w, Response InvalidBase64 400)
        | Some audio_bytes =>
            let '(w, r) := with_temp_file e whisper_model audio_bytes w in
            (w, default failed r)
        end
  end end end end end.

(** The view as registered: [@require_json] around
    [@rate_limit_by_ip(max_requests=20, per_seconds=3600)]. *)
Definition transcribe_route (e : env) (req : request)
    (request_counts : gmap string (list Z)) (w : world)
  : gmap string (list Z) * world * response :=
  let '(rc, w, r) :=
    Middleware.require_json
      (λ '(rc, w),
         let '(rc, w, r) :=
           Middleware.decorated_function 20 3600 (transcribe_audio e req)
             (remote_addr req) (time_limiter e) rc w in
         ((rc, w), r))
      req (request_counts, w) in
  (rc, w, r).
End View.

(** Sample data: a quiet environment in which every operation succeeds, a
    world with no model and no files, and payloads of a given size. *)
Definition calm (now : Z) : env :=
  Env now now now (Some 1%nat) (Some "/tmp/tmpk3v9qz.wav"%string) true true
      (λ _, Some (" namaste "%string, "hi"%string)) true.

(** The same, but [os.unlink] raises; and the same, but the write raises. *)
Definition sticky (now : Z) : env :=
  Env now now now (Some 1%nat) (Some "/tmp/tmpk3v9qz.wav"%string) true true
      (λ _, Some (" namaste "%string, "hi"%string)) false.

Definition disk_full (now : Z) : env :=
  Env now now now (Some 1%nat) (Some "/tmp/tmpk3v9qz.wav"%string) false true
      (λ _, Some (" namaste "%string, "hi"%string)) true.

Definition cold : world := World (Globals None 0) ∅ [].

Fixpoint repeat_char (c : ascii) (n : nat) : string :=
  match n with
  | O => EmptyString
  | Datatypes.S n => String c (repeat_char c n)
  end.

Definition post_audio (audio_data : json) : request :=
  Request true "10.0.0.7"%string (Some (JObj [("audio_data"%string, audio_data)])).

End Transcribe.

(** ** Threads around [model_lock]

    [get_model] and [cleanup_model_if_idle] run on request threads and on the
    cleanup worker at once. Each call is cut at the points where another
    thread can observe or change the globals: taking and releasing
    [model_lock], and each read or write of [model] and [last_used]. The
    unlocked test of [cleanup_model_if_idle] is one step (splitting its reads
    only adds interleavings). *)

Module Threads.
Import Whisper.

Inductive pc : Type :=
  | GetModel_enter                      (* at [with model_lock:] *)
  | GetModel_test                       (* lock held, at [if model is None:] *)
  | GetModel_load                       (* lock held, in [load_whisper_model()] *)
  | GetModel_touch                      (* lock held, at [last_used = time.time()] *)
  | GetModel_exit (r : option handle)   (* lock held, leaving the block with [return r] *)
  | Cleanup_test                        (* at the unlocked [if model is not None and ...] *)
  | Cleanup_enter                       (* test passed, at [with model_lock:] *)
  | Cleanup_inner                       (* lock held, at [if model is not None:] *)
  | Cleanup_exit                        (* lock held, leaving the block *)
  | Returned (r : option handle).

(** [loads]: what [whisper.load_model] does if this thread calls it. *)
Record thread : Type := Thread { at_pc : pc; loads : option handle }.

Record config : Type := Config {
  shared : globals;
  locked : bool;                 (* [model_lock.locked()] *)
  clock : Z;                     (* what [time.time()] returns now *)
  threads : list thread;
  load_calls : nat;              (* calls of [whisper.load_model] so far *)
  built : list handle            (* the models those calls returned *)
}.

Definition goto (i : nat) (t : thread) (p : pc) (c : config) : list thread :=
  <[i := Thread p (loads t)]> (threads c).

(** One step of thread [i]; [None] when it is blocked on the lock, has
    returned, or does not exist. *)
Definition step (i : nat) (c : config) : option config :=
  t ← threads c !! i;
  match at_pc t with
  | GetModel_enter =>
      if locked c then None
      else Some (Config (shared c) true (clock c) (goto i t GetModel_test c)
                   (load_calls c) (built c))
  | GetModel_test =>
      let next :=
        match model (shared c) with None => GetModel_load | Some _ => GetModel_touch end in
      Some (Config (shared c) (locked c) (clock c) (goto i t next c)
              (load_calls c) (built c))
  | GetModel_load =>
      match loads t with
      | Some m =>
          Some (Config (Globals (Some m) (last_used (shared c))) (locked c) (clock c)
                  (goto i t GetModel_touch c) (S (load_calls c)) (built c ++ [m]))
      | None =>
          Some (Config (shared c) (locked c) (clock c)
                  (goto i t (GetModel_exit None) c) (S (load_calls c)) (built c))
      end
  | GetModel_touch =>
      Some (Config (Globals (model (shared c)) (clock c)) (locked c) (clock c)
              (goto i t (GetModel_exit (model (shared c))) c) (load_calls c) (built c))
  | GetModel_exit r =>
      Some (Config (shared c) false (clock c) (goto i t (Returned r) c)
              (load_calls c) (built c))
  | Cleanup_test =>
      let next :=
        if bool_decide (model (shared c) ≠ None)
           && bool_decide (600 < clock c - last_used (shared c))
        then Cleanup_enter else Returned None in
      Some (Config (shared c) (locked c) (clock c) (goto i t next c)
              (load_calls c) (built c))
  | Cleanup_enter =>
      if locked c then None
      else Some (Config (shared c) true (clock c) (goto i t Cleanup_inner c)
                   (load_calls c) (built c))
  | Cleanup_inner =>
      let g :=
        if bool_decide (model (shared c) ≠ None)
        then Globals None (last_used (shared c)) else shared c in
      Some (Config g (locked c) (clock c) (goto i t Cleanup_exit c)
              (load_calls c) (built c))
  | Cleanup_exit =>
      Some (Config (shared c) false (clock c) (goto i t (Returned None) c)
              (load_calls c) (built c))
  | Returned _ => None
  end.

Inductive action : Type :=
  | Run (i : nat)        (* thread [i] takes its next step *)
  | Tick (d : nat).      (* [d] seconds pass *)

Definition act (a : action) (c : config) : option config :=
  match a with
  | Run i => step i c
  | Tick d =>
      Some (Config (shared c) (locked c) (clock c + Z.of_nat d) (threads c)
              (load_calls c) (built c))
  end.

(** A schedule, [None] if one of its actions is not enabled. *)
Fixpoint exec (schedule : list action) (c : config) : option config :=
  match schedule with
  | [] => Some c
  | a :: schedule => act a c ≫= exec schedule
  end.

(** [n] callers about to enter [get_model]; caller [i] would get the model
    [outcomes !! i] from the loader. *)
Definition callers (outcomes : list (option handle)) : list thread :=
  Thread GetModel_enter <$> outcomes.

Definition idle (g : globals) (now : Z) (ts : list thread) : config :=
  Config g false now ts 0 [].

Definition result (c : config) (i : nat) : option (option handle) :=
  t ← threads c !! i;
  match at_pc t with Returned r => Some r | _ => None end.

Definition in_critical_section (t : thread) : bool :=
  match at_pc t with
  | GetModel_test | GetModel_load | GetModel_touch | GetModel_exit _
  | Cleanup_inner | Cleanup_exit => true
  | _ => false
  end.

(** A caller whose own load raised: it leaves, or has left, with [None]. *)
Definition failed (t : thread) : bool :=
  match at_pc t with
  | GetModel_exit None | Returned None => true
  | _ => false
  end.

(** How many threads satisfy [p]. *)
Fixpoint population (p : thread → bool) (ts : list thread) : nat :=
  match ts with
  | [] => O
  | t :: ts => ((if p t then 1 else 0) + population p ts)%nat
  end.

(** What holds of a caller of [get_model] at each point, given the
    current value of the global [model]. *)
Definition caller_ok (current : option handle) (t : thread) : Prop :=
  match at_pc t with
  | GetModel_enter | GetModel_test => True
  | GetModel_load => current = None
  | GetModel_touch => is_Some current
  | GetModel_exit (Some r) | Returned (Some r) => current = Some r
  | GetModel_exit None | Returned None => loads t = None
  | Cleanup_test | Cleanup_enter | Cleanup_inner | Cleanup_exit => False
  end.

(** [model_lock] is held exactly while one thread is inside a locked
    block. *)
Definition lock_inv (c : config) : Prop :=
  population in_critical_section (threads c) = (if locked c then 1 else 0)%nat.

(** The invariant of any number of concurrent [get_model] calls. *)
Definition callers_inv (c : config) : Prop :=
  lock_inv c ∧
  built c = option_list (model (shared c)) ∧
  load_calls c = (length (built c) + population failed (threads c))%nat ∧
  (∀ j t, threads c !! j = Some t → caller_ok (model (shared c)) t).

(** The sweep decides on a stale reading: a schedule in which the cleanup
    worker (thread 0) tests, a request (thread 1) then runs [get_model] to
    the end, and the worker goes on. *)
Definition stale_sweep : list action :=
  [Run 0; Tick 1; Run 1; Run 1; Run 1; Run 1; Run 0; Run 0; Run 0].

Definition sweeper_and_caller : config :=
  idle (Globals (Some 7%nat) 0) 601 [Thread Cleanup_test None; Thread GetModel_enter None].

(** Two callers finding no model; the first one's load raises. Thread 1
    asks for the lock while thread 0 holds it, and proceeds afterwards. *)
Definition first_fails : list action :=
  [Run 0; Run 0; Run 0; Run 0; Run 1; Run 1; Run 1; Run 1; Run 1].

End Threads.

(** ** Runs of the limiter seen caller by caller *)

Module Limiter.

(** The checks of one caller, and the decisions they received. *)
Definition calls_of (ip : string) (calls : list (string * Z)) : list (string * Z) :=
  filter (λ call, call.1 = ip) calls.

Definition decisions_of (ip : string) (calls : list (string * Z)) (decisions : list bool)
  : list bool :=
  (filter (λ cd : string * Z * bool, cd.1.1 = ip) (zip calls decisions)).*2.

(** Two stores that no cutoff from [c] on can tell apart. *)
Definition alike (c : Z) (rc1 rc2 : gmap string (list Z)) : Prop :=
  ∀ ip c', c ≤ c' →
    Middleware.clean c' (Middleware.get rc1 ip) = Middleware.clean c' (Middleware.get rc2 ip).

End Limiter.

(** ** [validate_json_fields], [log_execution_time] and the views of
    [routes/api_v1.py]

    The bodies these views build carry a [timestamp]; [echo] adds a
    [request_id] header value and two counts taken of the message. Those
    fields are left out of the payloads below. *)

Module ApiV1.

(** An exception that leaves the view function: [request.get_json()]
    refusing the body (werkzeug's [BadRequest]), or a [TypeError] or
    [AttributeError] nothing catches. *)
Inductive raised : Type := BadRequest | Unhandled.

Inductive api_payload : Type :=
  | InvalidJsonData                                     (* 'Invalid JSON data' *)
  | MissingRequiredFields (missing_fields : list string)
  | UnexpectedFields (unexpected_fields : list string)
  | Echo (message : string)               (* 'original_message' and 'echo' *)
  | EchoFailed                                          (* 'Internal server error' *)
  | InvalidEmail                                        (* 'Invalid email format' *)
  | UserCreated (id : Z) (name email phone address : json)
  | CreateFailed                                        (* 'Failed to create user' *)
  | SumNeedsNumbers                      (* 'Sum operation requires a list of numbers' *)
  | UnknownOperation (operation : json)
  | ProcessFailed.                                      (* 'Data processing failed' *)

(** What a decorated view of this blueprint answers: one of the
    middleware's own responses, a body of the blueprint with its status
    code, or an exception. *)
Inductive reply : Type :=
  | FromMiddleware (r : response)
  | FromApi (p : api_payload) (status_code : Z)
  | Raised (e : raised).

Definition status (r : reply) : option Z :=
  match r with
  | FromMiddleware r => Some (status_code r)
  | FromApi _ code => Some code
  | Raised _ => None
  end.

(** Python truth value of a parsed body ([if not data]). *)
Definition truthy (v : json) : bool :=
  match v with
  | JNull => false
  | JBool b => b
  | JNum n => negb (n =? 0)
  | JStr s => negb (bool_decide (s = ""%string))
  | JArr items => negb (bool_decide (items = []))
  | JObj members => negb (bool_decide (members = []))
  end.

(** [[field for field in fields if field not in data]]; [None] when the
    membership test raises. *)
Fixpoint not_in (data : json) (fields : list string) : option (list string) :=
  match fields with
  | [] => Some []
  | field :: fields =>
      match Py.contains field data, not_in data fields with
      | Some found, Some rest => Some (if found : bool then rest else field :: rest)
      | _, _ => None
      end
  end.

(** [data.keys()]; [None] is the [AttributeError] of a body that is not a
    dict. *)
Definition keys (data : json) : option (list string) :=
  match data with
  | JObj members => Some members.*1
  | _ => None
  end.

(** [require_json] and the limiter of [utils/middleware.py] once more, around
    views that answer a [reply]. *)
Definition require_json {S : Type} (f : S → S * reply) (req : request) (s : S)
  : S * reply :=
  if negb (is_json req) then (s, FromMiddleware (Response ContentTypeError 400)) else f s.

Definition rate_limit_by_ip {S : Type} (max_requests per_seconds : Z)
    (f : S → S * reply) (req : request) (current_time : Z)
    (state : gmap string (list Z) * S) : (gmap string (list Z) * S) * reply :=
  let '(request_counts, s) := state in
  let '(request_counts, reached) :=
    Middleware.allow max_requests per_seconds (remote_addr req) current_time request_counts in
  if reached then let '(s, r) := f s in ((request_counts, s), r)
  else ((request_counts, s),
        FromMiddleware (Response (RateLimitExceeded max_requests per_seconds) 429)).

(** [required_fields=None] and [required_fields=[]] behave alike (both are
    false in [if required_fields:]); so do the two for [optional_fields]. *)
Definition validate_json_fields {S : Type} (required_fields optional_fields : list string)
    (f : S → S * reply) (req : request) (s : S) : S * reply :=
  if negb (is_json req) then (s, FromMiddleware (Response ContentTypeError 400))
  else
    match get_json req with
    | None => (s, Raised BadRequest)
    | Some data =>
        if negb (truthy data) then (s, FromApi InvalidJsonData 400)
        else
          let checked_required :=
            if bool_decide (required_fields = []) then Some []
            else not_in data required_fields in
          match checked_required with
          | None => (s, Raised Unhandled)
          | Some (field :: missing_fields) =>
              (s, FromApi (MissingRequiredFields (field :: missing_fields)) 400)
          | Some [] =>
              if negb (bool_decide (optional_fields = []))
                 && negb (bool_decide (required_fields = []))
              then
                let allowed_fields := required_fields ++ optional_fields in
                match keys data with
                | None => (s, Raised Unhandled)
                | Some ks =>
                    match filter (λ field, field ∉ allowed_fields) ks with
                    | [] => f s
                    | unexpected_fields =>
                        (s, FromApi (UnexpectedFields unexpected_fields) 400)
                    end
                end
              else f s
          end
    end.

(** The wrapper only measures and logs. *)
Definition log_execution_time {S : Type} (f : S → S * reply) (s : S) : S * reply := f s.

(** [data.get(key)] on the parsed body; [None] is the [AttributeError] of a
    body without [get], a missing key gives Python's [None]. *)
Definition get (data : json) (key : string) : option json :=
  match data with
  | JObj members => Some (default JNull (Py.dict_get key members))
  | _ => None
  end.

(** The view [echo]: which of its two answers it gives. The [try] block
    slices the message, takes its [len] and calls its [split]; all three
    work on a [str], and for every other value one of them raises (a list
    passes the first two, not the third). The counts in the body of the 200
    are not modelled. *)
Definition echo (req : request) : reply :=
  match get_json req ≫= (λ data, get data "message") with
  | Some (JStr message) => FromApi (Echo message) 200
  | _ => FromApi EchoFailed 500
  end.

(** The view [create_user]; [now] is [time.time()]. *)
Definition create_user (now : Z) (req : request) : reply :=
  match get_json req with
  | None => FromApi CreateFailed 500
  | Some data =>
      match get data "email" with
      | None => FromApi CreateFailed 500
      | Some email =>
          match Py.contains "@" email with
          | None => FromApi CreateFailed 500
          | Some false => FromApi InvalidEmail 400
          | Some true =>
              FromApi (UserCreated now
                         (default JNull (get data "name")) email
                         (default JNull (get data "phone"))
                         (default JNull (get data "address"))) 201
          end
      end
  end.

(** [isinstance(x, (int, float))]: a JSON boolean is an [int] too. *)
Definition is_number (v : json) : bool :=
  match v with JNum _ | JBool _ => true | _ => false end.

Definition reverse_string (s : string) : string :=
  String.string_of_list_ascii (rev (String.list_ascii_of_string s)).

Section Process.
(** [str.upper], [str()] of a parsed value and [sum] of a list of numbers,
    as Python defines them; [sum] is [None] when an addition raises. *)
Variable upper : string → string.
Variable str : json → string.
Variable sum : list json → option json.

(** The operations of [process_data] on [data]: the [result], or the
    answer the view gives in its place (a 400, or the 500 of its [except]
    branch when [sum] raises). *)
Definition operate (operation data : json) : json + reply :=
  if Py.is_str "count" operation then
    inl match data with
        | JArr items => JNum (Z.of_nat (length items))
        | JStr s => JNum (Z.of_nat (String.length s))
        | _ => JNum 1
        end
  else if Py.is_str "reverse" operation then
    inl match data with
        | JArr items => JArr (rev items)
        | JStr s => JStr (reverse_string s)
        | _ => data
        end
  else if Py.is_str "uppercase" operation then
    inl match data with
        | JStr s => JStr (upper s)
        | JArr items =>
            JArr ((λ item, match item with JStr s => JStr (upper s) | _ => item end)
                    <$> items)
        | _ => JStr (upper (str data))
        end
  else if Py.is_str "sum" operation then
    match data with
    | JArr items =>
        if forallb is_number items
        then match sum items with
             | Some result => inl result
             | None => inr (FromApi ProcessFailed 500)
             end
        else inr (FromApi SumNeedsNumbers 400)
    | _ => inr (FromApi SumNeedsNumbers 400)
    end
  else inr (FromApi (UnknownOperation operation) 400).
End Process.

(** Whether [validate_json_fields] lets a request through to the view it
    wraps, and what it answers when it does not. *)
Definition passes (required_fields optional_fields : list string) (req : request) : bool :=
  (validate_json_fields required_fields optional_fields
     (λ _ : bool, (true, FromMiddleware (jsonify Plain))) req false).1.

Definition refusal (required_fields optional_fields : list string) (req : request) : reply :=
  (validate_json_fields required_fields optional_fields
     (λ _ : bool, (true, FromMiddleware (jsonify Plain))) req false).2.

(** The routes as registered, on the limiter's dictionary of each. *)
Definition echo_route (now : Z) (req : request) (request_counts : gmap string (list Z))
  : gmap string (list Z) * reply :=
  let '((rc, _), r) :=
    require_json
      (validate_json_fields ["message"%string] []
         (rate_limit_by_ip 50 3600 (log_execution_time (λ s : unit, (s, echo req))) req now)
         req)
      req (request_counts, tt) in
  (rc, r).

Definition create_user_route (now_limiter now : Z) (req : request)
    (request_counts : gmap string (list Z)) : gmap string (list Z) * reply :=
  let '((rc, _), r) :=
    require_json
      (validate_json_fields ["name"; "email"]%string ["phone"; "address"]%string
         (rate_limit_by_ip 20 3600
            (log_execution_time (λ s : unit, (s, create_user now req))) req now_limiter)
         req)
      req (request_counts, tt) in
  (rc, r).

End ApiV1.

(** ** [config.py] and the probes of [routes/health.py] *)

Module Health.

(** [os.environ.get('SECRET_KEY') or 'dev-secret-key-change-in-production'],
    evaluated in the body of the class [Config]. *)
Definition SECRET_KEY (environ : gmap string string) : string :=
  match environ !! "SECRET_KEY"%string with
  | Some key => if bool_decide (key = ""%string)
                then "dev-secret-key-change-in-production"%string else key
  | None => "dev-secret-key-change-in-production"%string
  end.

(** [app.config] after [from_object(Config)]: the class attribute under
    its name, over the other entries. None of the subclasses in [config.py]
    sets [SECRET_KEY]. *)
Definition from_object (environ : gmap string string) (config : gmap string json)
  : gmap string json :=
  <["SECRET_KEY"%string := JStr (SECRET_KEY environ)]> config.

(** The ['status'] of a check. *)
Inductive service_status : Type :=
  | Healthy
  | Unhealthy.

(** The [try] block only builds a dict. *)
Definition check_database_health : service_status := Healthy.

(** The check and its list [missing_configs]. *)
Definition missing_configs (config : gmap string json) : list string :=
  filter (λ name, ApiV1.truthy (default JNull (config !! name)) = false)
         ["SECRET_KEY"%string].

Definition check_configuration_health (config : gmap string json) : service_status :=
  match missing_configs config with
  | [] => Healthy
  | _ => Unhealthy
  end.

Definition is_healthy (check : service_status) : bool :=
  match check with Healthy => true | Unhealthy => false end.

(** [readiness_check]: whether the body says ['ready'], and the status
    code. *)
Definition readiness_check (config : gmap string json) : bool * Z :=
  let checks := [check_database_health; check_configuration_health config] in
  let all_ready := forallb is_healthy checks in
  if all_ready then (true, 200) else (false, 503).

End Health.

(** ** Checks of the limiter that overlap

    [decorated_function] of [rate_limit_by_ip] takes no lock: request
    threads run it at once on the one dictionary of the decorator. Here a
    check is cut at its statements, between which another thread can run:
    the assignment of the purged window, the test of its length, the two
    statements that record the request. [client_ip] and [current_time] are
    the check's own readings, taken before the first of them. *)

Module Overlap.
Import Middleware.

Inductive pc : Type :=
  | Purge        (* at [request_counts[client_ip] = [...]] *)
  | Test         (* at [if len(request_counts.get(client_ip, [])) >= max_requests:] *)
  | Ensure       (* at [if client_ip not in request_counts:] *)
  | Append       (* at [request_counts[client_ip].append(current_time)] *)
  | Accepted     (* at the call of the view *)
  | Rejected.    (* returned 429 *)

Record check : Type := Check { at_pc : pc; client_ip : string; current_time : Z }.

Record config : Type :=
  Config { request_counts : gmap string (list Z); checks : list check }.

Definition goto (i : nat) (k : check) (p : pc) (c : config) : list check :=
  <[i := Check p (client_ip k) (current_time k)]> (checks c).

(** The next statement of check [i]; [None] when it has returned or does
    not exist. *)
Definition step (max_requests per_seconds : Z) (i : nat) (c : config) : option config :=
  k ← checks c !! i;
  let rc := request_counts c in
  match at_pc k with
  | Purge =>
      let cutoff_time := current_time k - per_seconds in
      Some (Config (<[client_ip k := clean cutoff_time (get rc (client_ip k))]> rc)
              (goto i k Test c))
  | Test =>
      if bool_decide (max_requests ≤ Z.of_nat (length (get rc (client_ip k))))
      then Some (Config rc (goto i k Rejected c))
      else Some (Config rc (goto i k Ensure c))
  | Ensure =>
      Some (Config (if bool_decide (rc !! client_ip k = None)
                    then <[client_ip k := []]> rc else rc)
              (goto i k Append c))
  | Append =>
      Some (Config (alter (λ w, w ++ [current_time k]) (client_ip k) rc)
              (goto i k Accepted c))
  | Accepted | Rejected => None
  end.

(** A schedule names the check that runs next; [None] if one of them
    cannot. *)
Fixpoint exec (max_requests per_seconds : Z) (schedule : list nat) (c : config)
  : option config :=
  match schedule with
  | [] => Some c
  | i :: schedule => step max_requests per_seconds i c ≫= exec max_requests per_seconds schedule
  end.

(** Checks that have taken their readings and not yet run a statement. *)
Definition arrive (calls : list (string * Z)) : list check :=
  (λ call, Check Purge call.1 call.2) <$> calls.

(** A check that has returned, by its decision. *)
Definition returned (call : string * Z) (accepted : bool) : check :=
  Check (if accepted then Accepted else Rejected) call.1 call.2.

Definition decision (k : check) : option bool :=
  match at_pc k with
  | Accepted => Some true
  | Rejected => Some false
  | _ => None
  end.

(** Two requests of one address, a second apart, against a limiter of one
    request a minute; and two ways for them to overlap. *)
Definition twice : list (string * Z) := [("10.0.0.7", 100); ("10.0.0.7", 101)]%string.

Definition in_step : list nat := [0; 1; 0; 1; 0; 1; 0; 1]%nat.

Definition overtaking : list nat := [0; 1; 1; 0; 1; 1; 0; 0]%nat.

End Overlap.

(** * Properties *)

(** ** The rate limiter *)

Module MiddlewareFacts.
Import Middleware.


Lemma get_insert_eq rc ip w : get (<[ip := w]> rc) ip = w.
Proof. unfold get. by rewrite lookup_insert_eq. Qed.

Lemma get_insert_ne rc ip ip' w : ip ≠ ip' → get (<[ip := w]> rc) ip' = get rc ip'.
Proof. intros. unfold get. by rewrite lookup_insert_ne. Qed.


Lemma clean_clean c c' w : c ≤ c' → clean c' (clean c w) = clean c' w.
Proof.
  intros Hc. unfold clean. rewrite list_filter_filter.
  apply list_filter_iff. intros t. lia.
Qed.

Lemma clean_app c w1 w2 : clean c (w1 ++ w2) = clean c w1 ++ clean c w2.
Proof. apply filter_app. Qed.

Lemma length_clean c w : (length (clean c w) ≤ length w)%nat.
Proof. apply length_filter. Qed.

(** The decorator, with the dictionary updates carried out. *)
Lemma decorated_function_unfold {S} max_requests per_seconds (f : S → S * response)
    ip now rc s :
  decorated_function max_requests per_seconds f ip now rc s =
    let w := clean (now - per_seconds) (get rc ip) in
    if bool_decide (max_requests ≤ Z.of_nat (length w))
    then (<[ip := w]> rc, s, Response (RateLimitExceeded max_requests per_seconds) 429)
    else (<[ip := w ++ [now]]> rc, (f s).1, (f s).2).
Proof.
  unfold decorated_function. cbv zeta. rewrite get_insert_eq.
  case_bool_decide as Hfull; [done|].
  rewrite lookup_insert_eq, bool_decide_eq_false_2 by done.
  rewrite alter_insert_eq. by destruct (f s).
Qed.

Lemma allow_unfold max_requests per_seconds ip now rc :
  allow max_requests per_seconds ip now rc =
    let w := clean (now - per_seconds) (get rc ip) in
    if bool_decide (max_requests ≤ Z.of_nat (length w))
    then (<[ip := w]> rc, false)
    else (<[ip := w ++ [now]]> rc, true).
Proof.
  unfold allow. rewrite decorated_function_unfold. cbv zeta.
  by case_bool_decide.
Qed.

Lemma run_app max_requests per_seconds calls1 calls2 rc :
  run max_requests per_seconds (calls1 ++ calls2) rc =
    let '(rc1, bs1) := run max_requests per_seconds calls1 rc in
    let '(rc2, bs2) := run max_requests per_seconds calls2 rc1 in
    (rc2, bs1 ++ bs2).
Proof.
  revert rc. induction calls1 as [|[ip now] calls1 IH]; intros rc; simpl.
  - by destruct (run _ _ calls2 rc).
  - destruct (allow _ _ ip now rc) as [rc' b]. rewrite IH.
    destruct (run _ _ calls1 rc') as [rc1 bs1].
    by destruct (run _ _ calls2 rc1).
Qed.

Lemma run_length max_requests per_seconds calls rc :
  length (run max_requests per_seconds calls rc).2 = length calls.
Proof.
  revert rc. induction calls as [|[ip now] calls IH]; intros rc; simpl; [done|].
  destruct (allow _ _ ip now rc) as [rc' b]. specialize (IH rc').
  destruct (run _ _ calls rc') as [rc1 bs1]. simpl in *. by rewrite IH.
Qed.

Lemma recorded_snoc ip calls decisions ip' t b :
  length decisions = length calls →
  recorded ip (calls ++ [(ip', t)]) (decisions ++ [b]) =
    recorded ip calls decisions ++ (if b && bool_decide (ip' = ip) then [t] else []).
Proof.
  intros Hlen. unfold recorded.
  rewrite zip_with_app by done. rewrite omap_app. simpl.
  by destruct (b && bool_decide (ip' = ip)).
Qed.

(** What is stored for [ip] after a run on a non-decreasing clock agrees
    with the record of its accepted checks, seen through any cutoff that is
    not older than the cutoffs already applied. *)
Lemma run_window max_requests per_seconds ip calls :
  ∀ c, (∀ t, t ∈ calls.*2 → t - per_seconds ≤ c) →
    clean c (get (run max_requests per_seconds calls ∅).1 ip) =
    clean c (recorded ip calls (run max_requests per_seconds calls ∅).2).
Proof.
  induction calls as [|[ip' t'] calls IH] using rev_ind; intros c Hc.
  - done.
  - pose proof (run_length max_requests per_seconds calls ∅) as Hlen.
    rewrite run_app. simpl.
    destruct (run max_requests per_seconds calls ∅) as [rc1 bs1] eqn:Hrun.
    simpl in *. rewrite allow_unfold. cbv zeta.
    assert (Hc1 : ∀ t, t ∈ calls.*2 → t - per_seconds ≤ c).
    { intros t Ht. apply Hc. rewrite fmap_app. apply elem_of_app. by left. }
    assert (Hc2 : t' - per_seconds ≤ c).
    { apply Hc. rewrite fmap_app. apply elem_of_app. right. simpl. left. }
    specialize (IH c Hc1).
    destruct (decide (ip' = ip)) as [->|Hne].
    + case_bool_decide as Hfull; simpl;
        rewrite recorded_snoc by done; rewrite get_insert_eq; simpl;
        rewrite ?bool_decide_eq_true_2 by done; simpl.
      * rewrite app_nil_r, clean_clean by done. done.
      * rewrite !clean_app, clean_clean by done. by rewrite IH.
    + case_bool_decide as Hfull; simpl;
        rewrite recorded_snoc by done;
        rewrite get_insert_ne by done;
        rewrite bool_decide_eq_false_2 by done;
        rewrite ?andb_false_r, app_nil_r; done.
Qed.

(** The decision of each check of a run, from the record alone. *)
Lemma run_decision max_requests per_seconds pre ip now post :
  StronglySorted Z.le ((pre ++ (ip, now) :: post).*2) →
  let decisions := (run max_requests per_seconds (pre ++ (ip, now) :: post) ∅).2 in
  let recent :=
    clean (now - per_seconds) (recorded ip pre (take (length pre) decisions)) in
  decisions !! length pre
    = Some (bool_decide (Z.of_nat (length recent) < max_requests)).
Proof.
  intros Hsorted. cbv zeta.
  pose proof (run_length max_requests per_seconds pre ∅) as Hlen.
  pose proof (run_window max_requests per_seconds ip pre (now - per_seconds)) as Hwin.
  rewrite run_app. simpl.
  destruct (run max_requests per_seconds pre ∅) as [rc1 bs1]. simpl in *.
  rewrite allow_unfold. cbv zeta.
  rewrite Hwin; last first.
  { intros t Ht. rewrite fmap_app in Hsorted. simpl in Hsorted.
    assert (Hnow : now ∈ now :: post.*2) by left.
    pose proof (StronglySorted_app_1_elem_of _ _ _ t now Hsorted Ht Hnow). lia. }
  set (n := length (clean _ (recorded ip pre bs1))).
  assert (Htake : ∀ (b : bool) bs, take (length pre) (bs1 ++ b :: bs) = bs1).
  { intros. rewrite <- Hlen. by rewrite take_app_length. }
  case_bool_decide as Hfull.
  - destruct (run _ _ post _) as [rc2 bs2]. simpl.
    rewrite Htake. fold n.
    rewrite <- Hlen, list_lookup_middle by done.
    by rewrite bool_decide_eq_false_2 by lia.
  - destruct (run _ _ post _) as [rc2 bs2]. simpl.
    rewrite Htake. fold n.
    rewrite <- Hlen, list_lookup_middle by done.
    by rewrite bool_decide_eq_true_2 by lia.
Qed.

Lemma clean_keep_all c w : (∀ t, t ∈ w → c < t) → clean c w = w.
Proof.
  induction w as [|t w IH]; intros Hall; [done|].
  unfold clean. rewrite filter_cons_True by (apply Hall; left).
  f_equal. apply IH. intros t' Ht'. apply Hall. by right.
Qed.

Lemma clean_fmap_add d c w : clean (d + c) (Z.add d <$> w) = Z.add d <$> clean c w.
Proof.
  induction w as [|t w IH]; [done|]. unfold clean in *. rewrite fmap_cons.
  destruct (decide (c < t)).
  - rewrite !filter_cons_True by lia. rewrite fmap_cons. by f_equal.
  - rewrite !filter_cons_False by lia. done.
Qed.

Lemma get_shift d rc ip : get (shift d rc) ip = Z.add d <$> get rc ip.
Proof. unfold get, shift. rewrite lookup_fmap. by destruct (rc !! ip). Qed.

Lemma run_bounded max_requests per_seconds calls rc :
  (∀ ip, Z.of_nat (length (get rc ip)) ≤ max_requests) →
  ∀ ip, Z.of_nat (length (get (run max_requests per_seconds calls rc).1 ip))
        ≤ max_requests.
Proof.
  revert rc. induction calls as [|[ip' now] calls IH]; intros rc Hrc ip; simpl.
  - apply Hrc.
  - destruct (allow _ _ ip' now rc) as [rc' b] eqn:Hallow.
    specialize (IH rc').
    destruct (run _ _ calls rc') as [rc2 bs]. simpl in *. apply IH.
    intros ip0. rewrite allow_unfold in Hallow. cbv zeta in Hallow.
    pose proof (length_clean (now - per_seconds) (get rc ip')).
    specialize (Hrc ip') as Hip'.
    case_bool_decide; simplify_eq; destruct (decide (ip' = ip0)) as [->|];
      rewrite ?get_insert_eq, ?get_insert_ne by done;
      rewrite ?length_app; simpl; try apply Hrc; lia.
Qed.



Lemma length_filter_impl (P Q : Z → Prop) `{∀ x, Decision (P x)} `{∀ x, Decision (Q x)}
    (l : list Z) :
  (∀ x, P x → Q x) → (length (filter P l) ≤ length (filter Q l))%nat.
Proof.
  intros HPQ. induction l as [|x l IH]; [done|].
  destruct (decide (P x)) as [HP|HP].
  - rewrite (filter_cons_True P) by done.
    rewrite (filter_cons_True Q) by auto. simpl. lia.
  - rewrite (filter_cons_False P) by done.
    destruct (decide (Q x)).
    + rewrite (filter_cons_True Q) by done. simpl. lia.
    + by rewrite (filter_cons_False Q) by done.
Qed.

(** On a clock that does not run backwards, no window of [per_seconds]
    holds more than [max_requests] accepted checks of one caller. *)
Lemma run_rate max_requests per_seconds ip calls :
  0 ≤ max_requests → StronglySorted Z.le (calls.*2) →
  ∀ t, Z.of_nat (length (filter (λ x, t - per_seconds < x ≤ t)
                           (recorded ip calls (run max_requests per_seconds calls ∅).2)))
       ≤ max_requests.
Proof.
  intros Hmax. induction calls as [|[ip' t'] calls IH] using rev_ind; intros Hsorted t.
  - simpl. lia.
  - rewrite fmap_app in Hsorted. simpl in Hsorted.
    pose proof (StronglySorted_app_1_l _ _ _ Hsorted) as Hpre.
    specialize (IH Hpre).
    pose proof (run_length max_requests per_seconds calls ∅) as Hlen.
    pose proof (run_window max_requests per_seconds ip calls (t' - per_seconds)) as Hwin.
    rewrite run_app. simpl.
    destruct (run max_requests per_seconds calls ∅) as [rc1 bs1]. simpl in *.
    rewrite allow_unfold. cbv zeta.
    case_bool_decide as Hfull; simpl; rewrite recorded_snoc by done; simpl.
    + rewrite app_nil_r. apply IH.
    + case_bool_decide as Hip; simpl; [subst ip'|rewrite app_nil_r; apply IH].
      rewrite Hwin in Hfull; last first.
      { intros x Hx. assert (Ht' : t' ∈ [t']) by left.
        pose proof (StronglySorted_app_1_elem_of _ _ _ x t' Hsorted Hx Ht'). lia. }
      rewrite filter_app, length_app.
      destruct (decide (t - per_seconds < t' ≤ t)) as [Hin|Hout].
      * rewrite (filter_cons_True _ t') by done. simpl.
        pose proof (length_filter_impl (λ x, t - per_seconds < x ≤ t)
                      (λ x, t' - per_seconds < x) (recorded ip calls bs1)) as Hle.
        assert (Himpl : ∀ x, t - per_seconds < x ≤ t → t' - per_seconds < x) by (intros; lia).
        specialize (Hle Himpl). unfold clean in Hfull. lia.
      * rewrite (filter_cons_False _ t') by done. simpl.
        specialize (IH t). lia.
Qed.

(** C2. For checks that run one after another ([run]: each check returns
    before the next one starts; checks that overlap are in [Overlap]). On a
    clock that does not run backwards, a check is accepted exactly
    when fewer than [max_requests] of the same caller's earlier accepted
    checks are newer than [now - per_seconds]: the next check within a
    window already holding [max_requests] of them is rejected, and no window
    of [per_seconds] ever holds more than [max_requests] accepted checks. A
    full window whose oldest entry is [t0] admits the caller again exactly
    from [t0 + per_seconds] on. The decision depends on time differences
    only: moving the stored timestamps and [now] by the same amount changes
    nothing. *)
Theorem sliding_window max_requests per_seconds ip now :
  (∀ pre post,
     StronglySorted Z.le ((pre ++ (ip, now) :: post).*2) →
     let decisions := (run max_requests per_seconds (pre ++ (ip, now) :: post) ∅).2 in
     let recent :=
       clean (now - per_seconds) (recorded ip pre (take (length pre) decisions)) in
     (max_requests ≤ Z.of_nat (length recent) → decisions !! length pre = Some false) ∧
     (Z.of_nat (length recent) < max_requests → decisions !! length pre = Some true)) ∧
  (∀ calls,
     0 ≤ max_requests → StronglySorted Z.le (calls.*2) →
     let accepted := recorded ip calls (run max_requests per_seconds calls ∅).2 in
     Z.of_nat (length (filter (λ t, now - per_seconds < t ≤ now) accepted))
     ≤ max_requests) ∧
  (∀ rc t0 rest,
     get rc ip = t0 :: rest →
     (∀ t, t ∈ rest → t0 ≤ t) →
     Z.of_nat (length (t0 :: rest)) = max_requests →
     ((allow max_requests per_seconds ip now rc).2 = true ↔ t0 + per_seconds ≤ now)) ∧
  (∀ rc d,
     allow max_requests per_seconds ip (d + now) (shift d rc)
     = (shift d (allow max_requests per_seconds ip now rc).1,
        (allow max_requests per_seconds ip now rc).2)).
Proof.
  split; [|split; [|split]].
  - intros pre post Hsorted. cbv zeta.
    pose proof (run_decision max_requests per_seconds pre ip now post Hsorted) as Hd.
    cbv zeta in Hd. rewrite Hd. split; intros Hn.
    + by rewrite bool_decide_eq_false_2 by lia.
    + by rewrite bool_decide_eq_true_2 by lia.
  - intros calls Hmax Hsorted. by apply run_rate.
  - intros rc t0 rest Hget Hmin Hlen. rewrite allow_unfold. cbv zeta. rewrite Hget.
    destruct (decide (t0 + per_seconds ≤ now)) as [Hfree|Hbusy].
    + unfold clean. rewrite filter_cons_False by lia.
      pose proof (length_filter (λ t, now - per_seconds < t) rest) as Hle.
      simpl in Hlen. rewrite bool_decide_eq_false_2 by lia. simpl. tauto.
    + rewrite clean_keep_all.
      * rewrite bool_decide_eq_true_2 by lia. simpl. split; [done|lia].
      * intros t [->|Ht]%elem_of_cons; [lia|]. specialize (Hmin t Ht). lia.
  - intros rc d. rewrite !allow_unfold. cbv zeta. rewrite get_shift.
    replace (d + now - per_seconds) with (d + (now - per_seconds)) by lia.
    rewrite clean_fmap_add, length_fmap.
    unfold shift. case_bool_decide; simpl; rewrite fmap_insert; [done|].
    by rewrite fmap_app.
Qed.

Lemma sliding_window_witness :
  (run 1 3600 [("10.0.0.7", 0); ("10.0.0.7", 3599); ("10.0.0.7", 3600)]%string ∅).2 !! 1%nat
    = Some false ∧
  Z.of_nat (length (filter (λ t, 3600 - 3600 < t ≤ 3600)
              (recorded "10.0.0.7"
                 [("10.0.0.7", 0); ("10.0.0.7", 3599); ("10.0.0.7", 3600)]%string
                 (run 1 3600
                    [("10.0.0.7", 0); ("10.0.0.7", 3599); ("10.0.0.7", 3600)]%string ∅).2)))
    ≤ 1 ∧
  ((allow 1 3600 "10.0.0.7" 3600 {["10.0.0.7"%string := [0]]}).2 = true ↔ 0 + 3600 ≤ 3600).
Proof.
  pose proof (sliding_window 1 3600 "10.0.0.7"%string 3599) as [Hrun _].
  pose proof (sliding_window 1 3600 "10.0.0.7"%string 3600) as (_ & Hrate & Hslot & _).
  split; [|split].
  - apply (Hrun [("10.0.0.7"%string, 0)] [("10.0.0.7"%string, 3600)]).
    + simpl. repeat constructor; lia.
    + vm_compute. discriminate.
  - apply (Hrate [("10.0.0.7", 0); ("10.0.0.7", 3599); ("10.0.0.7", 3600)]%string).
    + lia.
    + simpl. repeat constructor; lia.
  - apply (Hslot {["10.0.0.7"%string := [0]]} 0 []).
    + reflexivity.
    + intros t Ht. inversion Ht.
    + reflexivity.
Defined.

(** C9. For checks that run one after another ([run]). With
    [max_requests] not negative, after any such sequence of checks on a
    fresh limiter every caller's stored window holds at most [max_requests]
    timestamps. A single check leaves the other callers' windows alone; if
    it accepts, the purged window held fewer than [max_requests] entries
    and gains exactly [now]; if it rejects, the purged window is stored
    as it is. *)
Theorem window_bounded max_requests per_seconds :
  0 ≤ max_requests →
  (∀ calls ip,
     Z.of_nat (length (get (run max_requests per_seconds calls ∅).1 ip)) ≤ max_requests) ∧
  (∀ rc ip now,
     let w := clean (now - per_seconds) (get rc ip) in
     let '(rc', accepted) := allow max_requests per_seconds ip now rc in
     (accepted = true →
        Z.of_nat (length w) < max_requests ∧ get rc' ip = w ++ [now]) ∧
     (accepted = false → get rc' ip = w) ∧
     (∀ ip', ip ≠ ip' → get rc' ip' = get rc ip')).
Proof.
  intros Hmax. split.
  - intros calls ip. apply run_bounded. intros ip'. unfold get.
    rewrite lookup_empty. simpl. lia.
  - intros rc ip now. rewrite allow_unfold. cbv zeta.
    case_bool_decide as Hfull; (split; [|split]); try done.
    + intros _. apply get_insert_eq.
    + intros ip' Hne. by apply get_insert_ne.
    + intros _. split; [lia|apply get_insert_eq].
    + intros ip' Hne. by apply get_insert_ne.
Qed.

Lemma window_bounded_witness :
  Z.of_nat (length (get (run 2 60 [("a", 0); ("a", 1); ("a", 2); ("b", 2)]%string ∅).1
                        "a"%string)) ≤ 2.
Proof.
  assert (H : 0 ≤ 2) by lia.
  apply (proj1 (window_bounded 2 60 H)).
Defined.

End MiddlewareFacts.

(** ** The model globals, one call at a time *)

Module WhisperFacts.
Import Whisper.

Lemma get_model_present loaded now m last :
  get_model loaded now (Globals (Some m) last) = (Globals (Some m) now, Some m).
Proof. reflexivity. Qed.

(** An absent model is built by the call that finds it absent. *)
Lemma get_model_absent_ok m now last :
  get_model (Some m) now (Globals None last) = (Globals (Some m) now, Some m).
Proof. reflexivity. Qed.

(** A failed load leaves the globals as they were: the next call tries
    again. *)
Lemma get_model_absent_fail now last :
  get_model None now (Globals None last) = (Globals None last, None).
Proof. reflexivity. Qed.

(** Run on its own, the sweep evicts exactly a present model that has been
    idle for more than 600 seconds. *)
Lemma cleanup_model_if_idle_spec now g :
  cleanup_model_if_idle now g =
    if bool_decide (is_Some (model g) ∧ 600 < now - last_used g)
    then Globals None (last_used g) else g.
Proof.
  unfold cleanup_model_if_idle.
  destruct g as [[m|] last]; simpl; repeat case_bool_decide; simpl;
    try done; try tauto.
  exfalso. eauto.
Qed.

(** After more than 600 idle seconds the sweep makes the model absent and
    the next [get_model] loads a new one. *)
Lemma sweep_then_reload m last now m' now' :
  600 < now - last →
  cleanup_model_if_idle now (Globals (Some m) last) = Globals None last ∧
  get_model (Some m') now' (cleanup_model_if_idle now (Globals (Some m) last))
    = (Globals (Some m') now', Some m').
Proof.
  intros Hidle. rewrite cleanup_model_if_idle_spec. simpl.
  rewrite bool_decide_eq_true_2; [done|]. split; [by eexists|done].
Qed.

(** Run on its own, the sweep keeps a model used within the last 600
    seconds. *)
Lemma sweep_keeps_fresh g now :
  now - last_used g ≤ 600 → cleanup_model_if_idle now g = g.
Proof.
  intros Hfresh. rewrite cleanup_model_if_idle_spec.
  rewrite bool_decide_eq_false_2; [done|]. lia.
Qed.

(** Refutes C4 as stated: the health check of an absent model, with a
    loader that succeeds, leaves the model present. *)
Lemma health_check_constructs :
  model (Globals None 0) = None ∧
  model (health_check (Some 1%nat) 50 (Globals None 0)).1 = Some 1%nat.
Proof. split; reflexivity. Qed.

(** C4, amended. The health check answers 200 with [model_status] either
    [loaded] or [not_loaded], and it obtains that status by calling
    [get_model]: a present model is kept and reported [loaded]; an absent
    model is loaded by the check itself, which reports [loaded] and leaves
    it present when the load succeeds, and reports [not_loaded] and leaves
    it absent when the load fails. *)
Theorem health_check_reports loaded now g :
  let '(g', r) := health_check loaded now g in
  status_code r = 200 ∧
  (body r = Health "loaded" 13 ∨ body r = Health "not_loaded" 13) ∧
  g' = (get_model loaded now g).1 ∧
  match model g, loaded with
  | Some m, _ => g' = Globals (Some m) now ∧ body r = Health "loaded" 13
  | None, Some m => g' = Globals (Some m) now ∧ body r = Health "loaded" 13
  | None, None => g' = g ∧ body r = Health "not_loaded" 13
  end.
Proof.
  destruct g as [[m|] last], loaded as [m'|]; simpl; auto 10.
Qed.

End WhisperFacts.

(** ** The [/transcribe] view *)

Module TranscribeFacts.
Import Whisper Transcribe.

Section View.
Variable b64decode : json → option (list Z).

Lemma transcribe_audio_unavailable e req w :
  acquired e w = None →
  transcribe_audio b64decode e req w = (after_acquire e w, Response ModelNotAvailable 503).
Proof.
  unfold acquired, after_acquire, transcribe_audio. cbv zeta.
  destruct (get_model _ _ _) as [g [m|]]; simpl; [discriminate|done].
Qed.

(** The view once the model is there and the body is parsed. *)
Lemma transcribe_audio_parsed e req w m data :
  acquired e w = Some m → get_json req = Some data →
  transcribe_audio b64decode e req w =
    let w := after_acquire e w in
    let failed := Response CouldNotTranscribe 500 in
    match Py.contains "audio_data" data with
    | None => (w, failed)
    | Some false => (w, Response MissingAudioData 400)
    | Some true =>
        match Py.getitem data "audio_data" ≫= (λ v, pair v <$> Py.len v) with
        | None => (w, failed)
        | Some (audio_data, n) =>
            if 5 * 1024 * 1024 <? n then (w, Response AudioTooLarge 413)
            else
              match b64decode audio_data with
              | None => (log (B64Decode audio_data) w, Response InvalidBase64 400)
              | Some audio_bytes =>
                  let '(w, r) :=
                    with_temp_file e m audio_bytes (log (B64Decode audio_data) w) in
                  (w, default failed r)
              end
        end
    end.
Proof.
  unfold acquired, after_acquire, transcribe_audio. cbv zeta.
  destruct (get_model _ _ _) as [g [m'|]]; simpl; [|discriminate].
  intros [= ->] ->.
  destruct (Py.contains _ data) as [[]|]; try done.
  destruct (Py.getitem data _) as [v|]; simpl; [|done].
  destruct (Py.len v) as [n|]; simpl; done.
Qed.

Lemma transcribe_route_not_json e req rc w :
  is_json req = false →
  transcribe_route b64decode e req rc w = (rc, w, Response ContentTypeError 400).
Proof. intros H. unfold transcribe_route, Middleware.require_json. by rewrite H. Qed.

Lemma transcribe_route_json e req rc w :
  is_json req = true →
  transcribe_route b64decode e req rc w =
    Middleware.decorated_function 20 3600 (transcribe_audio b64decode e req)
      (remote_addr req) (time_limiter e) rc w.
Proof.
  intros H. unfold transcribe_route, Middleware.require_json. rewrite H. simpl.
  by destruct (Middleware.decorated_function _ _ _ _ _ _ _) as [[??]?].
Qed.

Lemma with_temp_file_trace e m audio_bytes w :
  ∃ rest, trace (with_temp_file e m audio_bytes w).1 = trace w ++ rest.
Proof.
  unfold with_temp_file, try_body, finally.
  destruct (temp_name e) as [name|]; simpl; [|by exists []; rewrite app_nil_r].
  case_bool_decide; simpl; [by exists []; rewrite app_nil_r|].
  destruct (write_ok e); simpl; [|by eexists].
  destruct (close_ok e); simpl.
  - rewrite lookup_insert_eq. simpl.
    destruct (inference e audio_bytes) as [[text language]|]; simpl;
      rewrite lookup_insert_eq; simpl;
      destruct (negb (bool_decide (name = ""%string))); simpl;
      try destruct (unlink_ok e); simpl;
      rewrite <- ?app_assoc; by eexists.
  - rewrite lookup_insert_eq.
    destruct (negb (bool_decide (name = ""%string))); simpl;
      try destruct (unlink_ok e); simpl;
      rewrite <- ?app_assoc; by eexists.
Qed.

(** C6. Take a request whose body is a JSON object carrying a string
    under [audio_data]. If the string is longer than 5 MiB, no call of the
    route reaches [base64.b64decode] (nothing at all is logged), and a
    call that gets as far as the payload check (JSON content type,
    admitted by the limiter, model obtained) answers 413. If the string
    is at most 5 MiB long, such a call does attempt the decode. *)
Theorem oversize_rejected_before_decode e req rc w members s :
  get_json req = Some (JObj members) →
  Py.dict_get "audio_data" members = Some (JStr s) →
  let n := Z.of_nat (String.length s) in
  let '(rc', w', r) := transcribe_route b64decode e req rc w in
  (5 * 1024 * 1024 < n → trace w' = trace w) ∧
  (is_json req = true →
   (Middleware.allow 20 3600 (remote_addr req) (time_limiter e) rc).2 = true →
   is_Some (acquired e w) →
   (5 * 1024 * 1024 < n → r = Response AudioTooLarge 413) ∧
   (n ≤ 5 * 1024 * 1024 →
      ∃ rest, trace w' = trace w ++ B64Decode (JStr s) :: rest)).
Proof.
  intros Hbody Hfield n.
  assert (Hview :
    transcribe_audio b64decode e req w =
    match acquired e w with
    | None => (after_acquire e w, Response ModelNotAvailable 503)
    | Some m =>
        if 5 * 1024 * 1024 <? n
        then (after_acquire e w, Response AudioTooLarge 413)
        else
          match b64decode (JStr s) with
          | None => (log (B64Decode (JStr s)) (after_acquire e w),
                     Response InvalidBase64 400)
          | Some audio_bytes =>
              ((with_temp_file e m audio_bytes
                  (log (B64Decode (JStr s)) (after_acquire e w))).1,
               default (Response CouldNotTranscribe 500)
                 (with_temp_file e m audio_bytes
                    (log (B64Decode (JStr s)) (after_acquire e w))).2)
          end
    end).
  { destruct (acquired e w) as [m|] eqn:Hm.
    - rewrite (transcribe_audio_parsed e req w m _ Hm Hbody). cbv zeta. simpl.
      rewrite Hfield. rewrite bool_decide_eq_true_2 by (by eexists). simpl.
      fold n. destruct (5 * 1024 * 1024 <? n); [done|].
      destruct (b64decode (JStr s)); [|done].
      by destruct (with_temp_file _ _ _ _).
    - by apply transcribe_audio_unavailable. }
  destruct (is_json req) eqn:Hjson.
  - rewrite transcribe_route_json by done.
    rewrite MiddlewareFacts.decorated_function_unfold.
    rewrite MiddlewareFacts.allow_unfold. cbv zeta.
    case_bool_decide as Hfull; simpl.
    + split; [done|]. intros _ ?. discriminate.
    + rewrite Hview. split.
      * intros Hbig. apply Z.ltb_lt in Hbig. rewrite Hbig.
        by destruct (acquired e w).
      * intros _ _ [m Hm]. rewrite Hm. split.
        -- intros Hbig. apply Z.ltb_lt in Hbig. by rewrite Hbig.
        -- intros Hsmall. apply Z.ltb_ge in Hsmall. rewrite Hsmall.
           destruct (b64decode (JStr s)) as [audio_bytes|]; simpl.
           ++ destruct (with_temp_file_trace e m audio_bytes
                          (log (B64Decode (JStr s)) (after_acquire e w)))
                as [rest Hrest].
              exists rest. rewrite Hrest. simpl. by rewrite <- app_assoc.
           ++ by exists [].
  - rewrite transcribe_route_not_json by done. split; [done|]. discriminate.
Qed.

(** What the inner [try ... finally] does once the file is written and
    its name recorded, on each way out of the block. *)
Lemma with_temp_file_written e m audio_bytes w name :
  temp_name e = Some name → name ≠ ""%string → tmp w !! name = None →
  write_ok e = true →
  with_temp_file e m audio_bytes w =
    let body :=
      if close_ok e
      then [TempCreate name; TempWrite name audio_bytes; Infer m name (Some audio_bytes)]
      else [TempCreate name; TempWrite name audio_bytes] in
    let r :=
      if close_ok e then
        match inference e audio_bytes with
        | Some (text, language) => Some (response_data text language)
        | None => None
        end
      else None in
    (World (globals w)
           (if unlink_ok e then tmp w else <[name := audio_bytes]> (tmp w))
           (trace w ++ body ++ [Unlink name]),
     r).
Proof.
  intros Hname Hne Hfresh Hwrite.
  unfold with_temp_file, try_body, finally. rewrite Hname, Hwrite. simpl.
  rewrite (bool_decide_eq_false_2 (is_Some _)) by (rewrite Hfresh; by intros [??]).
  rewrite insert_insert_eq.
  destruct (close_ok e); simpl.
  - rewrite lookup_insert_eq. simpl.
    destruct (inference e audio_bytes) as [[text language]|]; simpl;
      rewrite lookup_insert_eq, (bool_decide_eq_false_2 (name = _)) by done;
      rewrite bool_decide_eq_true_2 by (by eexists); simpl;
      destruct (unlink_ok e); simpl; unfold set_tmp, log; simpl;
      rewrite ?delete_insert_id by done; rewrite <- ?app_assoc; reflexivity.
  - rewrite lookup_insert_eq, (bool_decide_eq_false_2 (name = _)) by done.
    rewrite bool_decide_eq_true_2 by (by eexists). simpl.
    destruct (unlink_ok e); simpl; unfold set_tmp, log; simpl;
      rewrite ?delete_insert_id by done; rewrite <- ?app_assoc; reflexivity.
Qed.

(** C8, amended. Take a call that reaches the temporary-file step (model
    obtained, payload within the ceiling and decoded) and in which the
    file is created under a fresh name and written, so that its path is
    recorded. Whatever happens next (the close fails, the inference
    raises, or the transcription succeeds) the last thing the call does
    is [os.unlink] on that path, and when that unlink succeeds the file
    is gone on return and [/tmp] is as before the call. An unlink that
    raises is ignored and leaves the file. *)
Theorem temp_file_unlinked e req w m members audio_data n audio_bytes name :
  acquired e w = Some m →
  get_json req = Some (JObj members) →
  Py.dict_get "audio_data" members = Some audio_data →
  Py.len audio_data = Some n → n ≤ 5 * 1024 * 1024 →
  b64decode audio_data = Some audio_bytes →
  temp_name e = Some name → name ≠ ""%string → tmp w !! name = None →
  write_ok e = true →
  let '(w', r) := transcribe_audio b64decode e req w in
  last (trace w') = Some (Unlink name) ∧
  (unlink_ok e = true → tmp w' !! name = None ∧ tmp w' = tmp w) ∧
  (unlink_ok e = false → tmp w' !! name = Some audio_bytes) ∧
  (status_code r = 200 ↔ close_ok e = true ∧ is_Some (inference e audio_bytes)) ∧
  (status_code r ≠ 200 → r = Response CouldNotTranscribe 500).
Proof.
  intros Hm Hbody Hfield Hlen Hsmall Hdecode Hname Hne Hfresh Hwrite.
  rewrite (transcribe_audio_parsed e req w m _ Hm Hbody). cbv zeta. simpl.
  rewrite Hfield, bool_decide_eq_true_2 by (by eexists). simpl.
  rewrite Hlen. simpl. apply Z.ltb_ge in Hsmall. rewrite Hsmall, Hdecode.
  rewrite (with_temp_file_written e m audio_bytes _ name) by done.
  cbv zeta. simpl. split; [|split; [|split; [|split]]].
  - rewrite !app_assoc. apply last_snoc.
  - intros ->. by split.
  - intros ->. apply lookup_insert_eq.
  - destruct (close_ok e); simpl.
    + destruct (inference e audio_bytes) as [[text language]|]; simpl.
      * split; [by split; [|eexists]|done].
      * split; [done|]. by intros [_ [??]].
    + split; [done|]. by intros [? _].
  - destruct (close_ok e); simpl; [|done].
    by destruct (inference e audio_bytes) as [[text language]|].
Qed.

(** When [b64decode] raises, the view answers 400 and goes no further. *)
Lemma decode_failure_is_400 e req w m members audio_data n :
  acquired e w = Some m →
  get_json req = Some (JObj members) →
  Py.dict_get "audio_data" members = Some audio_data →
  Py.len audio_data = Some n → n ≤ 5 * 1024 * 1024 →
  b64decode audio_data = None →
  transcribe_audio b64decode e req w
  = (log (B64Decode audio_data) (after_acquire e w), Response InvalidBase64 400).
Proof.
  intros Hm Hbody Hfield Hlen Hsmall Hdecode.
  rewrite (transcribe_audio_parsed e req w m _ Hm Hbody). cbv zeta. simpl.
  rewrite Hfield, bool_decide_eq_true_2 by (by eexists). simpl.
  rewrite Hlen. simpl. apply Z.ltb_ge in Hsmall. by rewrite Hsmall, Hdecode.
Qed.

(** What the decoder returns is what is written to the file and what the
    model reads. *)
Lemma decoded_bytes_reach_model e req w m members audio_data n audio_bytes name :
  acquired e w = Some m →
  get_json req = Some (JObj members) →
  Py.dict_get "audio_data" members = Some audio_data →
  Py.len audio_data = Some n → n ≤ 5 * 1024 * 1024 →
  b64decode audio_data = Some audio_bytes →
  temp_name e = Some name → name ≠ ""%string → tmp w !! name = None →
  write_ok e = true → close_ok e = true →
  trace (transcribe_audio b64decode e req w).1 =
    trace w ++ [B64Decode audio_data; TempCreate name; TempWrite name audio_bytes;
                Infer m name (Some audio_bytes); Unlink name].
Proof.
  intros Hm Hbody Hfield Hlen Hsmall Hdecode Hname Hne Hfresh Hwrite Hclose.
  rewrite (transcribe_audio_parsed e req w m _ Hm Hbody). cbv zeta. simpl.
  rewrite Hfield, bool_decide_eq_true_2 by (by eexists). simpl.
  rewrite Hlen. simpl. apply Z.ltb_ge in Hsmall. rewrite Hsmall, Hdecode.
  rewrite (with_temp_file_written e m audio_bytes _ name) by done.
  rewrite Hclose. cbv zeta. simpl. by rewrite <- app_assoc.
Qed.

(** C10, amended. With the model obtained and the body parsed, the
    membership test ['audio_data' in data] raises for [null], a boolean
    and a number, and the catch-all handler answers 500. It does not
    raise for an array or a string: the view answers 400 (missing field)
    unless the array has the element, or the string the substring,
    ['audio_data'], in which case the subscript raises and the answer is
    500. *)
Theorem non_object_body e req w data :
  is_Some (acquired e w) → get_json req = Some data →
  let r := (transcribe_audio b64decode e req w).2 in
  match data with
  | JNull | JBool _ | JNum _ =>
      Py.contains "audio_data" data = None ∧ r = Response CouldNotTranscribe 500
  | JArr _ | JStr _ =>
      ∃ found, Py.contains "audio_data" data = Some found ∧
      r = if found then Response CouldNotTranscribe 500
          else Response MissingAudioData 400
  | JObj _ => True
  end.
Proof.
  intros [m Hm] Hbody. cbv zeta.
  rewrite (transcribe_audio_parsed e req w m data Hm Hbody). cbv zeta.
  destruct data as [|b|n|s|items|members]; simpl; try done.
  - exists (Py.str_contains "audio_data" s). split; [done|].
    by destruct (Py.str_contains _ s).
  - exists (existsb (Py.is_str "audio_data") items). split; [done|].
    by destruct (existsb _ items).
Qed.

End View.

Lemma length_repeat_char c n : String.length (repeat_char c n) = n.
Proof. induction n as [|n IH]; simpl; congruence. Qed.

(** The 6 MiB scenario: rejected with 413, nothing decoded. *)
Lemma oversize_rejected_before_decode_witness :
  let payload := repeat_char "A" (Z.to_nat (6 * 1024 * 1024)) in
  let '(rc', w', r) :=
    transcribe_route Base64.b64decode (calm 1000) (post_audio (JStr payload)) ∅ cold in
  r = Response AudioTooLarge 413 ∧ trace w' = [].
Proof.
  intros payload.
  pose proof (oversize_rejected_before_decode Base64.b64decode (calm 1000)
                (post_audio (JStr payload)) ∅ cold
                [("audio_data"%string, JStr payload)] payload
                eq_refl eq_refl) as H.
  cbv zeta in H.
  destruct (transcribe_route _ _ _ _ _) as [[rc' w'] r].
  destruct H as [Hquiet Hview].
  assert (Hbig : 5 * 1024 * 1024 < Z.of_nat (String.length payload)).
  { unfold payload. rewrite length_repeat_char, Z2Nat.id; lia. }
  split.
  - apply Hview; [reflexivity|reflexivity|by eexists|exact Hbig].
  - apply Hquiet, Hbig.
Defined.

(** Refutes C8 as stated: the transcription succeeds, the unlink raises and
    is ignored, and the call returns 200 with the file still in [/tmp]. *)
Lemma temp_file_left_behind :
  let '(w', r) :=
    transcribe_audio Base64.b64decode (sticky 1000) (post_audio (JStr "QUJD")) cold in
  r = jsonify (Transcription "namaste" "hi" "Hindi") ∧
  last (trace w') = Some (Unlink "/tmp/tmpk3v9qz.wav") ∧
  tmp w' !! "/tmp/tmpk3v9qz.wav"%string = Some [65; 66; 67].
Proof. vm_compute. repeat split. Qed.

(** A write that raises leaves the created file behind as well: its path
    was never assigned, so the [finally] block does not even try. *)
Lemma write_fault_leaves_file :
  let '(w', r) :=
    transcribe_audio Base64.b64decode (disk_full 1000) (post_audio (JStr "QUJD")) cold in
  r = Response CouldNotTranscribe 500 ∧
  trace w' = [B64Decode (JStr "QUJD"); TempCreate "/tmp/tmpk3v9qz.wav"] ∧
  is_Some (tmp w' !! "/tmp/tmpk3v9qz.wav"%string).
Proof. vm_compute. repeat split. by eexists. Qed.

Lemma temp_file_unlinked_witness :
  let '(w', r) :=
    transcribe_audio Base64.b64decode (calm 1000) (post_audio (JStr "QUJD")) cold in
  last (trace w') = Some (Unlink "/tmp/tmpk3v9qz.wav") ∧
  tmp w' !! "/tmp/tmpk3v9qz.wav"%string = None.
Proof.
  pose proof (temp_file_unlinked Base64.b64decode (calm 1000)
                (post_audio (JStr "QUJD")) cold 1%nat
                [("audio_data"%string, JStr "QUJD")] (JStr "QUJD") 4 [65; 66; 67]
                "/tmp/tmpk3v9qz.wav"%string) as H.
  destruct (transcribe_audio _ _ _ _) as [w' r].
  destruct H as (Hlast & Hgone & _); try reflexivity; try done.
  split; [exact Hlast|]. by apply Hgone.
Defined.

(** Refutes C10 as stated: an empty JSON array is a non-object body, the
    membership test on it does not raise, and the answer is the 400
    missing-field error. *)
Lemma array_body_is_missing_field :
  let req := Request true "10.0.0.7"%string (Some (JArr [])) in
  is_json req = true ∧
  (transcribe_audio Base64.b64decode (calm 1000) req cold).2
    = Response MissingAudioData 400 ∧
  (transcribe_route Base64.b64decode (calm 1000) req ∅ cold).2
    = Response MissingAudioData 400.
Proof. vm_compute. repeat split. Qed.

Lemma non_object_body_witness :
  (transcribe_audio Base64.b64decode (calm 1000)
     (Request true "10.0.0.7"%string (Some JNull)) cold).2
  = Response CouldNotTranscribe 500.
Proof.
  assert (Hm : is_Some (acquired (calm 1000) cold)) by (by eexists).
  apply (non_object_body Base64.b64decode (calm 1000)
           (Request true "10.0.0.7"%string (Some JNull)) cold JNull Hm eq_refl).
Defined.

End TranscribeFacts.

(** ** Threads around [model_lock] *)

Module ThreadsFacts.
Import Whisper Threads.

Lemma population_insert p ts i t t' :
  ts !! i = Some t →
  (population p (<[i := t']> ts) + (if p t then 1 else 0)
   = population p ts + (if p t' then 1 else 0))%nat.
Proof.
  revert i. induction ts as [|t0 ts IH]; intros [|i] Hi; simpl in *; try done.
  - simplify_eq. lia.
  - specialize (IH i Hi). lia.
Qed.

Lemma population_zero p ts j t :
  population p ts = O → ts !! j = Some t → p t = false.
Proof.
  revert j. induction ts as [|t0 ts IH]; intros [|j] Hz Hj; simpl in *; try done.
  - simplify_eq. destruct (p t); [lia|done].
  - apply (IH j); [lia|done].
Qed.

(** While one thread is inside the locked block, no other is. *)
Lemma alone_in_critical_section ts i t j t' :
  (population in_critical_section ts ≤ 1)%nat →
  ts !! i = Some t → in_critical_section t = true →
  ts !! j = Some t' → i ≠ j → in_critical_section t' = false.
Proof.
  intros Hpop Hi Hin Hj Hne.
  pose proof (population_insert in_critical_section ts i t
                (Thread GetModel_enter None) Hi) as Hins.
  rewrite Hin in Hins. simpl in Hins.
  apply (population_zero in_critical_section
           (<[i := Thread GetModel_enter None]> ts) j); [lia|].
  by rewrite list_lookup_insert_ne.
Qed.

Lemma caller_ok_built m t :
  caller_ok None t → in_critical_section t = false → caller_ok (Some m) t.
Proof.
  unfold caller_ok, in_critical_section.
  destruct (at_pc t) as [| | | |[r|]| | | | |[r|]]; try done.
Qed.

Lemma callers_inv_init last now outcomes :
  callers_inv (idle (Globals None last) now (callers outcomes)).
Proof.
  unfold callers_inv, lock_inv, idle, callers. simpl.
  assert (Hpop : ∀ p, p (Thread GetModel_enter None) = false →
            (∀ o, p (Thread GetModel_enter o) = false) →
            population p (Thread GetModel_enter <$> outcomes) = O).
  { intros p _ Hp. induction outcomes as [|o os IH]; [done|].
    rewrite fmap_cons. cbn [population]. by rewrite Hp, IH. }
  rewrite !Hpop by done. repeat split.
  intros j t Hj. apply list_lookup_fmap_Some in Hj as (o & -> & _). exact I.
Qed.

(** Thread [i], found at [Hi], moves on to [t']: how the two populations
    change. *)
Local Ltac moved t' :=
  match goal with
  | Hi : threads _ !! _ = Some _ |- _ =>
      pose proof (population_insert in_critical_section _ _ _ t' Hi) as Hcs;
      pose proof (population_insert failed _ _ _ t' Hi) as Hfl;
      cbn in Hcs, Hfl
  end.

(** Every step of a caller keeps the invariant. *)
Lemma callers_inv_step i c c' :
  callers_inv c → step i c = Some c' → callers_inv c'.
Proof.
  intros (Hpop & Hbuilt & Hcalls & Hok) Hstep. unfold lock_inv in Hpop.
  unfold step in Hstep.
  destruct (threads c !! i) as [t|] eqn:Hi; simpl in Hstep; [|done].
  pose proof (Hok i t Hi) as Hme. unfold caller_ok in Hme.
  assert (Hothers : ∀ current p j t',
            (∀ j t', threads c !! j = Some t' → i ≠ j → caller_ok current t') →
            caller_ok current (Thread p (loads t)) →
            <[i := Thread p (loads t)]> (threads c) !! j = Some t' →
            caller_ok current t').
  { intros current p j t' Hrest Hnew Hj.
    destruct (decide (i = j)) as [->|Hne].
    - rewrite list_lookup_insert_eq in Hj by (by eapply lookup_lt_Some).
      by simplify_eq.
    - rewrite list_lookup_insert_ne in Hj by done. by eapply Hrest. }
  assert (Hsame : ∀ j t', threads c !! j = Some t' → i ≠ j →
            caller_ok (model (shared c)) t') by (intros; by eapply Hok).
  destruct t as [p o]. simpl in *. unfold goto in Hstep. simpl in Hstep.
  destruct p as [| | | |r| | | | |r]; try done.
  - (* taking the lock *)
    destruct (locked c) eqn:Hl; [done|]. simplify_eq. unfold callers_inv, lock_inv. simpl.
    moved (Thread GetModel_test o).
    simpl in *. split; [lia|]. split; [done|]. split; [lia|].
    intros j t'. by apply Hothers.
  - (* the test *)
    simplify_eq. unfold callers_inv, lock_inv. simpl.
    destruct (model (shared c)) as [m|] eqn:Hm.
    + moved (Thread GetModel_touch o).
      simpl in *. split; [lia|]. split; [done|]. split; [lia|].
      intros j t'. apply Hothers; [done|]. by eexists.
    + moved (Thread GetModel_load o).
      simpl in *. split; [lia|]. split; [done|]. split; [lia|].
      intros j t'. by apply Hothers.
  - (* the load *)
    rewrite Hme in Hbuilt, Hsame. simpl in Hbuilt.
    assert (Hone : (population in_critical_section (threads c) ≤ 1)%nat).
    { rewrite Hpop. destruct (locked c); lia. }
    destruct o as [m|]; simplify_eq; unfold callers_inv, lock_inv; simpl.
    + moved (Thread GetModel_touch (Some m)).
      rewrite Hbuilt in *. simpl in *. split; [lia|]. split; [done|]. split; [lia|].
      intros j t'. apply Hothers; [|by eexists].
      intros j' t'' Hj' Hne. apply caller_ok_built; [by eapply Hsame|].
      by eapply (alone_in_critical_section (threads c) i (Thread GetModel_load (Some m))).
    + moved (Thread (GetModel_exit None) None).
      rewrite Hme, Hbuilt in *. simpl in *. split; [lia|]. split; [done|]. split; [lia|].
      intros j t'. by apply Hothers.
  - (* the refresh of [last_used] *)
    destruct Hme as [m Hm]. simplify_eq. unfold callers_inv, lock_inv. simpl.
    moved (Thread (GetModel_exit (model (shared c))) o).
    rewrite Hm in *. simpl in *. split; [lia|]. split; [done|]. split; [lia|].
    intros j t'. by apply Hothers.
  - (* releasing the lock *)
    simplify_eq. unfold callers_inv, lock_inv. simpl.
    moved (Thread (Returned r) o).
    simpl in *.
    assert (locked c = true) as Hl by (destruct (locked c); [done|lia]).
    rewrite Hl in Hpop.
    split; [lia|]. split; [done|].
    split; [destruct r; lia|].
    intros j t'. apply Hothers; [done|]. by destruct r.
Qed.

Lemma callers_inv_exec schedule c c' :
  callers_inv c → exec schedule c = Some c' → callers_inv c'.
Proof.
  revert c. induction schedule as [|a schedule IH]; intros c Hinv Hexec; simpl in *.
  - by simplify_eq.
  - destruct (act a c) as [c1|] eqn:Hact; simpl in Hexec; [|done].
    apply (IH c1); [|done].
    destruct a as [i|d]; simpl in Hact.
    + by eapply callers_inv_step.
    + by simplify_eq.
Qed.

(** No step changes what the loader would answer to a thread. *)
Lemma loads_exec schedule c c' :
  exec schedule c = Some c' → loads <$> threads c' = loads <$> threads c.
Proof.
  revert c. induction schedule as [|a schedule IH]; intros c Hexec; simpl in *.
  - by simplify_eq.
  - destruct (act a c) as [c1|] eqn:Hact; simpl in Hexec; [|done].
    rewrite (IH c1 Hexec). destruct a as [i|d]; simpl in Hact; [|by simplify_eq].
    unfold step in Hact.
    destruct (threads c !! i) as [t|] eqn:Hi; simpl in Hact; [|done].
    assert (Hkeep : ∀ p, loads <$> goto i t p c = loads <$> threads c).
    { intros p. unfold goto. rewrite list_fmap_insert. simpl.
      apply list_insert_id. by rewrite list_lookup_fmap, Hi. }
    destruct (at_pc t); try destruct (locked c); try destruct (loads t);
      simplify_eq; simpl; by rewrite ?Hkeep.
Qed.

(** Whatever mix of callers and sweeps runs, the locked blocks of
    [get_model] and [cleanup_model_if_idle] never overlap. *)
Lemma lock_inv_step i c c' : lock_inv c → step i c = Some c' → lock_inv c'.
Proof.
  unfold lock_inv. intros Hpop Hstep. unfold step in Hstep.
  destruct (threads c !! i) as [[p o]|] eqn:Hi; simpl in Hstep; [|done].
  unfold goto in Hstep. simpl in Hstep.
  assert (Hheld : in_critical_section (Thread p o) = true → locked c = true).
  { intros Hin. destruct (locked c); [done|].
    by rewrite (population_zero _ _ _ _ Hpop Hi) in Hin. }
  destruct p as [| | | |r| | | | |r]; destruct (locked c) eqn:Hl;
    try destruct o as [m|]; simplify_eq; simpl;
    try (specialize (Hheld eq_refl); discriminate);
    try destruct (model (shared c));
    try destruct (bool_decide (600 < _)); simpl;
    match goal with
    | |- population _ (<[_ := ?t']> _) = _ =>
        pose proof (population_insert in_critical_section _ _ _ t' Hi) as Hcs;
        cbn in Hcs; try rewrite Hl; lia
    end.
Qed.

Lemma mutual_exclusion g now ts schedule c :
  population in_critical_section ts = O →
  exec schedule (idle g now ts) = Some c →
  (population in_critical_section (threads c) ≤ 1)%nat.
Proof.
  intros Hts Hexec.
  assert (Hinv : lock_inv c).
  { assert (H0 : lock_inv (idle g now ts)) by exact Hts.
    revert H0 Hexec. generalize (idle g now ts). clear Hts.
    induction schedule as [|a schedule IH]; intros c0 H0 Hexec; simpl in Hexec.
    - by simplify_eq.
    - destruct (act a c0) as [c1|] eqn:Hact; simpl in Hexec; [|done].
      apply (IH c1); [|done].
      destruct a as [i|d]; simpl in Hact; [by eapply lock_inv_step|by simplify_eq]. }
  unfold lock_inv in Hinv. rewrite Hinv. destruct (locked c); lia.
Qed.

(** X24. A caller running alone goes through [get_model] as the sequential
    function does: it ends with the lock released and with the globals and
    the result of [Whisper.get_model]. *)
Lemma get_model_alone g now o :
  ∃ schedule c,
    exec schedule (idle g now [Thread GetModel_enter o]) = Some c ∧
    locked c = false ∧
    (shared c, result c 0) = (let '(g', r) := get_model o now g in (g', Some r)).
Proof.
  destruct g as [[m|] last].
  - exists [Run 0; Run 0; Run 0; Run 0]. eexists. by split.
  - destruct o as [m|].
    + exists [Run 0; Run 0; Run 0; Run 0; Run 0]. eexists. by split.
    + exists [Run 0; Run 0; Run 0; Run 0]. eexists. by split.
Qed.

(** X25. So does the sweep through [cleanup_model_if_idle]: alone it ends
    with the lock released, the globals of the sequential function, and no
    call of the loader. *)
Lemma cleanup_alone g now :
  ∃ schedule,
    exec schedule (idle g now [Thread Cleanup_test None])
    = Some (Config (cleanup_model_if_idle now g) false now
              [Thread (Returned None) None] 0 []).
Proof.
  unfold cleanup_model_if_idle. destruct g as [[m|] last].
  - destruct (decide (600 < now - last)) as [Hidle|Hfresh].
    + exists [Run 0; Run 0; Run 0; Run 0].
      cbn -[Z.sub Z.ltb Z.lt bool_decide].
      rewrite (bool_decide_eq_true_2 (Some m ≠ None)) by done.
      rewrite (bool_decide_eq_true_2 (600 < _)) by done.
      cbn -[Z.sub Z.ltb Z.lt bool_decide].
      by rewrite (bool_decide_eq_true_2 (Some m ≠ None)) by done.
    + exists [Run 0]. cbn -[Z.sub Z.ltb Z.lt bool_decide].
      rewrite !(bool_decide_eq_false_2 (600 < _)) by done.
      by rewrite andb_false_r.
  - exists [Run 0]. cbn -[Z.sub Z.ltb Z.lt bool_decide].
    by rewrite (bool_decide_eq_false_2 (None ≠ None)) by (intros H; by apply H).
Qed.

(** C3: the sweep can destroy a model that was used a moment ago. The
    worker tests at time 601 a model last used at time 0; before it takes
    the lock a request runs [get_model], which refreshes [last_used] to 602
    and returns the model; the worker then takes the lock, finds the model
    still there, and removes it without looking at [last_used] again. *)
Theorem sweep_evicts_fresh_model :
  ∃ before after,
    exec (take 7 stale_sweep) sweeper_and_caller = Some before ∧
    shared before = Globals (Some 7%nat) 602 ∧
    clock before - last_used (shared before) = 0 ∧
    result before 1 = Some (Some 7%nat) ∧
    exec (drop 7 stale_sweep) before = Some after ∧
    shared after = Globals None 602 ∧ clock after = 602 ∧ locked after = false.
Proof. do 2 eexists. vm_compute. repeat split. Qed.

(** Refutes C5 as stated: of two callers finding no model, the first one's
    load raises and the second one's succeeds. The second waits for the
    lock, then loads on its own: two constructions are attempted, one
    caller gets [None] and the other a model. *)
Lemma failure_is_not_shared :
  let c0 := idle (Globals None 0) 100 (callers [None; Some 1%nat]) in
  (∃ c1, exec [Run 0] c0 = Some c1 ∧ step 1 c1 = None) ∧
  ∃ c, exec first_fails c0 = Some c ∧
       result c 0 = Some None ∧ result c 1 = Some (Some 1%nat) ∧
       load_calls c = 2%nat.
Proof. vm_compute. split; [by eexists|]. eexists. repeat split. Qed.

(** C5, amended. Any number of callers enter [get_model] while no model
    exists, in any interleaving. At every moment at most one of them is
    inside the locked block; at most one load succeeds, and every caller
    that returns a model returns that one, which is the current global
    model. A caller returns [None] only if its own load raised; the number
    of loads attempted is the number of models built plus the number of
    such callers, so a load that raises is not reported to the callers
    waiting for the lock: each of them loads again on its own. As long as
    no load has succeeded the model stays absent, and a later [get_model]
    whose load succeeds builds it. *)
Theorem concurrent_get_model outcomes last now schedule c :
  exec schedule (idle (Globals None last) now (callers outcomes)) = Some c →
  (population in_critical_section (threads c) ≤ 1)%nat ∧
  (length (built c) ≤ 1)%nat ∧
  (∀ i m, result c i = Some (Some m) →
          model (shared c) = Some m ∧ built c = [m]) ∧
  (∀ i, result c i = Some None → outcomes !! i = Some None) ∧
  load_calls c = (length (built c) + population failed (threads c))%nat ∧
  (built c = [] →
     model (shared c) = None ∧
     ∀ m t, get_model (Some m) t (shared c) = (Globals (Some m) t, Some m)).
Proof.
  intros Hexec.
  pose proof (callers_inv_exec _ _ _ (callers_inv_init last now outcomes) Hexec)
    as (Hpop & Hbuilt & Hcalls & Hok).
  unfold lock_inv in Hpop.
  pose proof (loads_exec _ _ _ Hexec) as Hloads. simpl in Hloads.
  split; [rewrite Hpop; destruct (locked c); lia|].
  split; [rewrite Hbuilt; destruct (model (shared c)); simpl; lia|].
  split; [|split; [|split; [done|]]].
  - intros i m Hres. unfold result in Hres.
    destruct (threads c !! i) as [t|] eqn:Hi; simpl in Hres; [|done].
    specialize (Hok i t Hi). unfold caller_ok in Hok.
    destruct (at_pc t) as [| | | |r| | | | |[r|]]; simplify_eq.
    rewrite Hbuilt, Hok. done.
  - intros i Hres. unfold result in Hres.
    destruct (threads c !! i) as [t|] eqn:Hi; simpl in Hres; [|done].
    specialize (Hok i t Hi). unfold caller_ok in Hok.
    assert (Hl : (loads <$> threads c) !! i = Some (loads t))
      by (by rewrite list_lookup_fmap, Hi).
    rewrite Hloads in Hl. unfold callers in Hl.
    rewrite <- list_fmap_compose in Hl.
    rewrite list_lookup_fmap in Hl. simpl in Hl.
    destruct (outcomes !! i) as [o|]; simpl in Hl; [|done].
    destruct (at_pc t) as [| | | |r| | | | |[r|]]; simplify_eq.
    by rewrite Hok.
  - intros Hnone. rewrite Hnone in Hbuilt.
    destruct (shared c) as [[m|] last']; simpl in *; [done|]. by split.
Qed.

Lemma concurrent_get_model_witness :
  ∃ c, exec first_fails (idle (Globals None 0) 100 (callers [None; Some 1%nat])) = Some c ∧
       (length (built c) ≤ 1)%nat.
Proof.
  eexists. split.
  - vm_compute. reflexivity.
  - apply (concurrent_get_model [None; Some 1%nat] 0 100 first_fails).
    vm_compute. reflexivity.
Defined.

End ThreadsFacts.

(** ** [base64.b64decode] in the view *)

Module Base64Facts.
Import Whisper Transcribe Base64.

(** Induction three bytes at a time, as [b2a_base64] recurses. *)
Lemma triples_ind (P : list Z → Prop) :
  P [] → (∀ a, P [a]) → (∀ a b, P [a; b]) →
  (∀ a b c l, P l → P (a :: b :: c :: l)) →
  ∀ l, P l.
Proof.
  intros Hnil Hone Htwo Hstep l.
  assert (H : P l ∧ (∀ a, P (a :: l)) ∧ (∀ a b, P (a :: b :: l))).
  { induction l as [|c l (IH0 & IH1 & IH2)]; [by repeat split|].
    split; [apply IH1|]. split; [intros a; apply IH2|]. intros a b. by apply Hstep. }
  apply H.
Qed.

Lemma length_b2a_base64 bin_data : ∃ k, length (b2a_base64 bin_data) = (4 * k)%nat.
Proof.
  induction bin_data as [|a|a b|a b c l [k IH]] using triples_ind.
  - by exists O.
  - by exists 1%nat.
  - by exists 1%nat.
  - exists (Datatypes.S k). cbn [b2a_base64 length]. rewrite IH. lia.
Qed.

Lemma length_ascii_string cs : String.length (ascii_string cs) = length cs.
Proof.
  unfold ascii_string. induction cs as [|c cs IH]; [done|].
  rewrite fmap_cons. simpl. by rewrite IH.
Qed.

Lemma length_b64encode bin_data : ∃ k, String.length (b64encode bin_data) = (4 * k)%nat.
Proof. unfold b64encode. rewrite length_ascii_string. apply length_b2a_base64. Qed.

Lemma below_spec n p : below n p = true → ∀ x, 0 ≤ x < n → p x = true.
Proof.
  unfold below. intros H x Hx.
  apply (proj1 (forallb_forall p (seqZ 0 n)) H).
  apply list_elem_of_In, elem_of_seqZ. lia.
Qed.

Lemma all_pairs_spec p :
  all_pairs p = true → ∀ a b, is_byte a → is_byte b → p a b = true.
Proof.
  intros H a b Ha Hb. unfold all_pairs in H.
  pose proof (below_spec _ _ H a Ha) as H1. cbv beta in H1.
  exact (below_spec _ _ H1 b Hb).
Qed.

Lemma table_test_all : below 64 table_test = true.
Proof. vm_compute. reflexivity. Qed.

Lemma sextet_test_all : all_pairs sextet_test = true.
Proof. vm_compute. reflexivity. Qed.

Lemma rebuild_test_all : all_pairs rebuild_test = true.
Proof. vm_compute. reflexivity. Qed.

Lemma table_round v :
  0 ≤ v < 64 →
  table_a2b_base64 (table_b2a_base64 v) = v ∧
  (table_b2a_base64 v =? BASE64_PAD) = false ∧
  0 ≤ table_b2a_base64 v < 128.
Proof.
  intros Hv. pose proof (below_spec _ _ table_test_all v Hv) as H.
  unfold table_test in H. repeat (apply andb_prop in H as [H ?]).
  split; [lia|]. split; [by apply negb_true_iff|lia].
Qed.

(** One alphabet character read by the decoder. *)
Lemma a2b_loop_char v ascii_data quad_pos leftchar pads bin_data :
  0 ≤ v < 64 →
  a2b_loop (table_b2a_base64 v :: ascii_data) quad_pos leftchar pads bin_data =
    if quad_pos =? 0 then a2b_loop ascii_data 1 v 0 bin_data
    else if quad_pos =? 1 then
      a2b_loop ascii_data 2 (Z.land v 15) 0
        (bin_data ++ [uchar (Z.lor (Z.shiftl leftchar 2) (Z.shiftr v 4))])
    else if quad_pos =? 2 then
      a2b_loop ascii_data 3 (Z.land v 3) 0
        (bin_data ++ [uchar (Z.lor (Z.shiftl leftchar 4) (Z.shiftr v 2))])
    else
      a2b_loop ascii_data 0 0 0
        (bin_data ++ [uchar (Z.lor (Z.shiftl leftchar 6) v)]).
Proof.
  intros Hv. destruct (table_round v Hv) as (Hinv & Hpad & _).
  cbn [a2b_loop]. rewrite Hpad, Hinv.
  by rewrite (proj2 (Z.leb_gt 64 v)) by lia.
Qed.

Lemma sextets a b :
  is_byte a → is_byte b →
  0 ≤ Z.shiftr a 2 < 64 ∧
  0 ≤ Z.lor (Z.shiftl (Z.land a 3) 4) (Z.shiftr b 4) < 64 ∧
  0 ≤ Z.lor (Z.shiftl (Z.land a 15) 2) (Z.shiftr b 6) < 64 ∧
  0 ≤ Z.land a 63 < 64 ∧
  0 ≤ Z.shiftl (Z.land a 3) 4 < 64 ∧
  0 ≤ Z.shiftl (Z.land a 15) 2 < 64.
Proof.
  intros Ha Hb. pose proof (all_pairs_spec _ sextet_test_all a b Ha Hb) as H.
  unfold sextet_test, is_sextet in H. repeat (apply andb_prop in H as [H ?]). lia.
Qed.

Lemma rebuilt a b :
  is_byte a → is_byte b →
  let s2 := Z.lor (Z.shiftl (Z.land a 3) 4) (Z.shiftr b 4) in
  let s3 := Z.lor (Z.shiftl (Z.land a 15) 2) (Z.shiftr b 6) in
  uchar (Z.lor (Z.shiftl (Z.shiftr a 2) 2) (Z.shiftr s2 4)) = a ∧
  Z.land s2 15 = Z.shiftr b 4 ∧
  uchar (Z.lor (Z.shiftl (Z.shiftr a 4) 4) (Z.shiftr s3 2)) = a ∧
  Z.land s3 3 = Z.shiftr b 6 ∧
  uchar (Z.lor (Z.shiftl (Z.shiftr a 6) 6) (Z.land a 63)) = a ∧
  Z.shiftr (Z.shiftl (Z.land a 3) 4) 4 = Z.shiftr s2 4 ∧
  Z.land (Z.shiftl (Z.land a 3) 4) 15 = 0 ∧
  Z.shiftr (Z.shiftl (Z.land a 15) 2) 2 = Z.shiftr s3 2.
Proof.
  intros Ha Hb. pose proof (all_pairs_spec _ rebuild_test_all a b Ha Hb) as H.
  unfold rebuild_test in H. cbv zeta in *.
  repeat (apply andb_prop in H as [H ?]).
  repeat split; by apply Z.eqb_eq.
Qed.

Lemma a2b_loop_pad2 leftchar bin_data :
  a2b_loop [BASE64_PAD; BASE64_PAD] 2 leftchar 0 bin_data = Some bin_data.
Proof. reflexivity. Qed.

Lemma a2b_loop_pad1 leftchar bin_data :
  a2b_loop [BASE64_PAD] 3 leftchar 0 bin_data = Some bin_data.
Proof. reflexivity. Qed.

Local Ltac crunch :=
  cbn -[Z.land Z.lor Z.shiftl Z.shiftr uchar table_b2a_base64 app a2b_loop].

(** The decoder undoes the encoder, whatever was decoded before. *)
Lemma a2b_b2a bin_data :
  Forall is_byte bin_data →
  ∀ acc, a2b_loop (b2a_base64 bin_data) 0 0 0 acc = Some (acc ++ bin_data).
Proof.
  induction bin_data as [|a|a b|a b c l IH] using triples_ind; intros Hbytes acc.
  - crunch. by rewrite app_nil_r.
  - apply Forall_cons in Hbytes as [Ha _].
    destruct (sextets a 0 Ha) as (H1 & _ & _ & _ & H2 & _); [done|].
    destruct (rebuilt a 0 Ha) as (R1 & _ & _ & _ & _ & R6 & _); [done|].
    cbn [b2a_base64].
    rewrite (a2b_loop_char _ _ _ _ _ _ H1). crunch.
    rewrite (a2b_loop_char _ _ _ _ _ _ H2). crunch.
    by rewrite a2b_loop_pad2, R6, R1.
  - apply Forall_cons in Hbytes as [Ha Hbytes]. apply Forall_cons in Hbytes as [Hb _].
    destruct (sextets a b Ha Hb) as (H1 & H2 & _).
    destruct (sextets b 0 Hb) as (_ & _ & _ & _ & _ & H3); [done|].
    destruct (rebuilt a b Ha Hb) as (R1 & R2 & _).
    destruct (rebuilt b 0 Hb) as (_ & _ & R3 & _ & _ & _ & _ & R8); [done|].
    cbn [b2a_base64].
    rewrite (a2b_loop_char _ _ _ _ _ _ H1). crunch.
    rewrite (a2b_loop_char _ _ _ _ _ _ H2). crunch.
    rewrite (a2b_loop_char _ _ _ _ _ _ H3). crunch.
    rewrite a2b_loop_pad1, R1, R2, R8, R3. by rewrite <- app_assoc.
  - apply Forall_cons in Hbytes as [Ha Hbytes]. apply Forall_cons in Hbytes as [Hb Hbytes].
    apply Forall_cons in Hbytes as [Hc Hbytes].
    destruct (sextets a b Ha Hb) as (H1 & H2 & _).
    destruct (sextets b c Hb Hc) as (_ & _ & H3 & _).
    destruct (sextets c 0 Hc) as (_ & _ & _ & H4 & _); [done|].
    destruct (rebuilt a b Ha Hb) as (R1 & R2 & _).
    destruct (rebuilt b c Hb Hc) as (_ & _ & R3 & R4 & _).
    destruct (rebuilt c 0 Hc) as (_ & _ & _ & _ & R5 & _); [done|].
    cbn [b2a_base64].
    rewrite (a2b_loop_char _ _ _ _ _ _ H1). crunch.
    rewrite (a2b_loop_char _ _ _ _ _ _ H2). crunch.
    rewrite (a2b_loop_char _ _ _ _ _ _ H3). crunch.
    rewrite (a2b_loop_char _ _ _ _ _ _ H4). crunch.
    rewrite R1, R2, R3, R4, R5. rewrite IH by done.
    by rewrite <- !app_assoc.
Qed.

(** The encoder writes ASCII. *)
Lemma b2a_ascii bin_data :
  Forall is_byte bin_data → Forall (λ ch, 0 ≤ ch < 128) (b2a_base64 bin_data).
Proof.
  induction bin_data as [|a|a b|a b c l IH] using triples_ind; intros Hbytes.
  - constructor.
  - apply Forall_cons in Hbytes as [Ha _].
    destruct (sextets a 0 Ha) as (H1 & _ & _ & _ & H2 & _); [done|].
    cbn [b2a_base64]. repeat constructor; try apply table_round; done.
  - apply Forall_cons in Hbytes as [Ha Hbytes]. apply Forall_cons in Hbytes as [Hb _].
    destruct (sextets a b Ha Hb) as (H1 & H2 & _).
    destruct (sextets b 0 Hb) as (_ & _ & _ & _ & _ & H3); [done|].
    cbn [b2a_base64]. repeat constructor; try apply table_round; done.
  - apply Forall_cons in Hbytes as [Ha Hbytes]. apply Forall_cons in Hbytes as [Hb Hbytes].
    apply Forall_cons in Hbytes as [Hc Hbytes].
    destruct (sextets a b Ha Hb) as (H1 & H2 & _).
    destruct (sextets b c Hb Hc) as (_ & _ & H3 & _).
    destruct (sextets c 0 Hc) as (_ & _ & _ & H4 & _); [done|].
    cbn [b2a_base64].
    repeat (apply Forall_cons; split; [by apply table_round|]). by apply IH.
Qed.

Lemma encode_ascii_string cs :
  Forall (λ ch, 0 ≤ ch < 128) cs → encode_ascii (ascii_string cs) = Some cs.
Proof.
  intros Hcs. unfold encode_ascii, ascii_string, code_points.
  rewrite String.list_ascii_of_string_of_list_ascii.
  rewrite <- list_fmap_compose.
  assert (Hid : (λ ch, Z.of_nat (nat_of_ascii (ascii_of_nat (Z.to_nat ch)))) <$> cs = cs).
  { induction Hcs as [|ch cs Hch _ IH]; [done|].
    rewrite fmap_cons, IH. f_equal.
    cbv beta in Hch. rewrite nat_ascii_embedding by lia. lia. }
  unfold compose. rewrite Hid.
  rewrite (proj2 (forallb_forall _ cs)); [done|].
  intros ch Hin. apply list_elem_of_In in Hin.
  pose proof (proj1 (Forall_forall _ cs) Hcs ch Hin) as Hch.
  cbv beta in Hch. apply Z.ltb_lt. lia.
Qed.

(** Round trip: the standard encoding of a byte string decodes to that
    byte string. *)
Lemma b64decode_b64encode bin_data :
  Forall is_byte bin_data → b64decode (JStr (b64encode bin_data)) = Some bin_data.
Proof.
  intros Hbytes. unfold b64decode, b64encode.
  rewrite encode_ascii_string by (by apply b2a_ascii). simpl.
  unfold a2b_base64. by rewrite a2b_b2a.
Qed.

(** X22. In the view: a payload that is the encoding of [bin_data], within
    the ceiling, puts exactly [bin_data] before the model. *)
Lemma valid_payload_reaches_model e req w m members bin_data name :
  acquired e w = Some m →
  get_json req = Some (JObj members) →
  Py.dict_get "audio_data" members = Some (JStr (b64encode bin_data)) →
  Forall is_byte bin_data →
  Z.of_nat (String.length (b64encode bin_data)) ≤ 5 * 1024 * 1024 →
  temp_name e = Some name → name ≠ ""%string → tmp w !! name = None →
  write_ok e = true → close_ok e = true →
  Infer m name (Some bin_data) ∈ trace (transcribe_audio b64decode e req w).1.
Proof.
  intros Hm Hbody Hfield Hbytes Hsmall Hname Hne Hfresh Hwrite Hclose.
  rewrite (TranscribeFacts.decoded_bytes_reach_model b64decode e req w m members
             _ _ bin_data name Hm Hbody Hfield eq_refl Hsmall
             (b64decode_b64encode _ Hbytes) Hname Hne Hfresh Hwrite Hclose).
  apply elem_of_app. right. do 3 right. left.
Qed.

(** Payloads on which the decoder does raise: a truncated group, a
    character outside ASCII, and a value that is not a string. *)
Lemma b64decode_raises :
  b64decode (JStr "QUJ") = None ∧
  b64decode (JStr (String (ascii_of_nat 233) "QUJD")) = None ∧
  b64decode (JArr [JStr "QUJD"]) = None.
Proof. by vm_compute. Qed.

(** C7: the decode step does not reject every payload that is not base64.
    ["QUJD!"] is the encoding of no byte string, yet [b64decode] drops the
    ['!'] and returns the bytes of ["ABC"], which the view writes to the
    temporary file and hands to the model, answering 200. A payload that
    is a JSON number is not rejected with 400 either: [len] raises on it
    and the catch-all handler answers 500. *)
Theorem invalid_base64_accepted :
  (∀ bin_data, b64encode bin_data ≠ "QUJD!"%string) ∧
  b64decode (JStr "QUJD!") = Some [65; 66; 67] ∧
  (let '(w', r) :=
     transcribe_audio b64decode (calm 1000) (post_audio (JStr "QUJD!")) cold in
   r = jsonify (Transcription "namaste" "hi" "Hindi") ∧
   trace w' !! 3%nat = Some (Infer 1%nat "/tmp/tmpk3v9qz.wav" (Some [65; 66; 67]))) ∧
  (transcribe_audio b64decode (calm 1000) (post_audio (JNum 5)) cold).2
    = Response CouldNotTranscribe 500.
Proof.
  split; [|by vm_compute].
  intros bin_data Heq. destruct (length_b64encode bin_data) as [k Hk].
  rewrite Heq in Hk. simpl in Hk. lia.
Qed.

End Base64Facts.

(** ** More on the rate limiter *)

Module LimiterFacts.
Import Middleware MiddlewareFacts Limiter.
#[local] Set Warnings "-clear-no-such-hyp".

Lemma run_cons max_requests per_seconds ip now calls rc :
  run max_requests per_seconds ((ip, now) :: calls) rc =
    ((run max_requests per_seconds calls (allow max_requests per_seconds ip now rc).1).1,
     (allow max_requests per_seconds ip now rc).2
     :: (run max_requests per_seconds calls (allow max_requests per_seconds ip now rc).1).2).
Proof.
  simpl. destruct (allow _ _ ip now rc) as [rc' b]. simpl.
  by destruct (run _ _ calls rc') as [rc2 bs].
Qed.

Lemma allow_other max_requests per_seconds ip ip' now rc :
  ip ≠ ip' → get (allow max_requests per_seconds ip now rc).1 ip' = get rc ip'.
Proof.
  intros Hne. rewrite allow_unfold. cbv zeta.
  case_bool_decide; simpl; by rewrite get_insert_ne.
Qed.

(** What a check decides and stores for its caller depends on that caller's
    window only. *)
Lemma allow_same_window max_requests per_seconds ip now rc1 rc2 :
  get rc1 ip = get rc2 ip →
  (allow max_requests per_seconds ip now rc1).2 = (allow max_requests per_seconds ip now rc2).2 ∧
  get (allow max_requests per_seconds ip now rc1).1 ip
  = get (allow max_requests per_seconds ip now rc2).1 ip.
Proof.
  intros Hw. rewrite !allow_unfold. cbv zeta. rewrite Hw.
  case_bool_decide; simpl; by rewrite !get_insert_eq.
Qed.

(** X1. Callers do not interfere: in any sequence of checks, the decisions
    one caller receives and the window stored for it are those it would
    get if the other callers' checks had never happened. Nothing of the
    dictionary matters to a caller but its own entry. *)
Theorem callers_independent max_requests per_seconds ip calls rc1 rc2 :
  get rc1 ip = get rc2 ip →
  decisions_of ip calls (run max_requests per_seconds calls rc1).2
  = (run max_requests per_seconds (calls_of ip calls) rc2).2 ∧
  get (run max_requests per_seconds calls rc1).1 ip
  = get (run max_requests per_seconds (calls_of ip calls) rc2).1 ip.
Proof.
  revert rc1 rc2. induction calls as [|[ip' now] calls IH]; intros rc1 rc2 Hw.
  - done.
  - rewrite run_cons. unfold calls_of, decisions_of in *. cbn [snd fst zip_with].
    destruct (decide (ip' = ip)) as [->|Hne].
    + rewrite (filter_cons_True (λ call : string * Z, call.1 = ip)) by done.
      rewrite (filter_cons_True (λ cd : string * Z * bool, cd.1.1 = ip)) by done.
      rewrite run_cons. cbn [snd fst]. rewrite fmap_cons. cbn [snd fst].
      destruct (allow_same_window max_requests per_seconds ip now rc1 rc2 Hw) as [Hb Hw'].
      destruct (IH _ _ Hw') as [IH1 IH2]. by rewrite Hb, IH1, IH2.
    + rewrite (filter_cons_False (λ call : string * Z, call.1 = ip)) by done.
      rewrite (filter_cons_False (λ cd : string * Z * bool, cd.1.1 = ip)) by done.
      apply IH. by rewrite allow_other.
Qed.

Lemma callers_independent_witness :
  decisions_of "10.0.0.7"
    [("10.0.0.7", 1); ("10.0.0.8", 2); ("10.0.0.7", 3); ("10.0.0.7", 4)]%string
    (run 2 60 [("10.0.0.7", 1); ("10.0.0.8", 2); ("10.0.0.7", 3); ("10.0.0.7", 4)]%string
       ∅).2
  = (run 2 60 [("10.0.0.7", 1); ("10.0.0.7", 3); ("10.0.0.7", 4)]%string ∅).2.
Proof.
  apply (proj1 (callers_independent 2 60 "10.0.0.7"
                  [("10.0.0.7", 1); ("10.0.0.8", 2); ("10.0.0.7", 3); ("10.0.0.7", 4)]%string
                  ∅ ∅ eq_refl)).
Defined.

(** X2. The dictionary never loses a key: after any sequence of checks it
    holds every key it had and an entry for every caller that was checked,
    accepted or not, however long ago. *)
Theorem keys_accumulate max_requests per_seconds calls rc :
  dom (run max_requests per_seconds calls rc).1 = dom rc ∪ list_to_set calls.*1.
Proof.
  revert rc. induction calls as [|[ip now] calls IH]; intros rc.
  - simpl. set_solver.
  - rewrite run_cons. simpl. rewrite IH, allow_unfold. cbv zeta.
    case_bool_decide; simpl; rewrite dom_insert_L; set_solver.
Qed.







(** X4. A limiter configured with [max_requests] zero or negative rejects
    every check with 429 and never runs the view it wraps. *)
Theorem no_budget {S} max_requests per_seconds (f : S → S * response) ip now rc s :
  max_requests ≤ 0 →
  (decorated_function max_requests per_seconds f ip now rc s).2
    = Response (RateLimitExceeded max_requests per_seconds) 429 ∧
  (decorated_function max_requests per_seconds f ip now rc s).1.2 = s ∧
  (∀ calls, (run max_requests per_seconds calls rc).2 = replicate (length calls) false).
Proof.
  intros Hmax. rewrite decorated_function_unfold. cbv zeta.
  rewrite bool_decide_eq_true_2 by lia. do 2 (split; [done|]).
  intros calls. revert rc. induction calls as [|[ip' now'] calls IH]; intros rc; [done|].
  rewrite run_cons. simpl. rewrite IH. f_equal.
  rewrite allow_unfold. cbv zeta. by rewrite bool_decide_eq_true_2 by lia.
Qed.

Lemma no_budget_witness :
  (run 0 60 [("a", 0); ("a", 100)]%string ∅).2 = [false; false].
Proof.
  assert (H : 0 ≤ 0) by lia.
  apply (proj2 (proj2 (no_budget 0 60 (λ s : unit, (s, jsonify Plain)) "a"%string 0 ∅ tt H))
           [("a", 0); ("a", 100)]%string).
Defined.

Lemma alike_allow max_requests per_seconds c ip now rc1 rc2 :
  alike c rc1 rc2 → c ≤ now - per_seconds →
  (allow max_requests per_seconds ip now rc1).2 = (allow max_requests per_seconds ip now rc2).2 ∧
  alike (now - per_seconds) (allow max_requests per_seconds ip now rc1).1
                            (allow max_requests per_seconds ip now rc2).1.
Proof.
  intros Halike Hc. rewrite !allow_unfold. cbv zeta.
  rewrite (Halike ip (now - per_seconds) Hc).
  case_bool_decide; simpl; (split; [done|]); intros ip' c' Hc';
    (destruct (decide (ip = ip')) as [->|Hne];
      [by rewrite !get_insert_eq|rewrite !get_insert_ne by done; apply Halike; lia]).
Qed.

Lemma alike_run max_requests per_seconds c calls rc1 rc2 :
  StronglySorted Z.le calls.*2 →
  (∀ t, t ∈ calls.*2 → c ≤ t - per_seconds) →
  alike c rc1 rc2 →
  (run max_requests per_seconds calls rc1).2 = (run max_requests per_seconds calls rc2).2.
Proof.
  revert c rc1 rc2. induction calls as [|[ip now] calls IH]; intros c rc1 rc2 Hs Hc Halike.
  - done.
  - rewrite !run_cons. simpl. rewrite fmap_cons in Hs, Hc. simpl in *.
    apply StronglySorted_cons in Hs as [Hnow Hs].
    destruct (alike_allow max_requests per_seconds c ip now rc1 rc2 Halike) as [Hb Hnext].
    { apply Hc. left. }
    rewrite Hb. f_equal. apply (IH (now - per_seconds)); [done| |done].
    intros t Ht. pose proof (proj1 (Forall_forall _ _) Hnow t Ht). lia.
Qed.

(** X5. Trying again while limited costs nothing: on a clock that does not
    run backwards, a rejected check has no effect on any later decision.
    The decisions of a run with one rejected check left out are the
    decisions of the full run with that one decision left out. *)
Theorem rejected_checks_are_free max_requests per_seconds pre ip now post :
  StronglySorted Z.le (pre ++ (ip, now) :: post).*2 →
  (run max_requests per_seconds (pre ++ (ip, now) :: post) ∅).2 !! length pre = Some false →
  (run max_requests per_seconds (pre ++ post) ∅).2
  = delete (length pre) (run max_requests per_seconds (pre ++ (ip, now) :: post) ∅).2.
Proof.
  intros Hsorted Hrej.
  pose proof (run_length max_requests per_seconds pre ∅) as Hlen.
  rewrite run_app in Hrej. rewrite !run_app.
  destruct (run max_requests per_seconds pre ∅) as [rc1 bs1].
  cbv beta match in Hrej |- *. rewrite run_cons in Hrej. rewrite run_cons.
  cbn [fst snd] in *.
  set (rc' := (allow max_requests per_seconds ip now rc1).1) in *.
  assert (Hsame : (run max_requests per_seconds post rc1).2
                  = (run max_requests per_seconds post rc').2).
  { rewrite <- Hlen in Hrej. rewrite list_lookup_middle in Hrej by done.
    rewrite fmap_app in Hsorted. simpl in Hsorted.
    apply StronglySorted_app_1_r in Hsorted.
    apply StronglySorted_cons in Hsorted as [Hnow Hs].
    symmetry. apply (alike_run max_requests per_seconds (now - per_seconds)); [done| |].
    - intros t Ht. pose proof (proj1 (Forall_forall _ _) Hnow t Ht). lia.
    - intros ip' c' Hc'. unfold rc'. rewrite allow_unfold in *. cbv zeta in *.
      case_bool_decide; simpl in *; [|by simplify_eq].
      destruct (decide (ip = ip')) as [->|Hne];
        [rewrite get_insert_eq; by apply clean_clean|by rewrite get_insert_ne]. }
  destruct (run max_requests per_seconds post rc1) as [rc2 bs2].
  destruct (run max_requests per_seconds post rc') as [rc3 bs3].
  cbn [fst snd] in *. subst bs3. rewrite <- Hlen. by rewrite delete_middle.
Qed.

Lemma rejected_checks_are_free_witness :
  (run 1 60 [("a", 0); ("a", 70)]%string ∅).2
  = delete 1%nat (run 1 60 [("a", 0); ("a", 30); ("a", 70)]%string ∅).2.
Proof.
  apply (rejected_checks_are_free 1 60 [("a", 0)]%string "a"%string 30 [("a", 70)]%string).
  - simpl. repeat constructor; lia.
  - vm_compute. reflexivity.
Defined.

End LimiterFacts.

(** ** [validate_json_fields] and the views of [routes/api_v1.py] *)

Module ApiV1Facts.
Import ApiV1.
#[local] Set Warnings "-clear-no-such-hyp".

Lemma dict_get_is_Some {A} key (members : list (string * A)) :
  is_Some (Py.dict_get key members) ↔ key ∈ members.*1.
Proof.
  induction members as [|[k v] members IH]; simpl.
  - split; [by intros [??]|by intros ?%elem_of_nil].
  - case_bool_decide as Hk.
    + subst. split; [intros _; left|by eexists].
    + rewrite IH, elem_of_cons. naive_solver.
Qed.

(** On an object the membership tests never raise: the comprehension is the
    list of the fields that are not keys. *)
Lemma not_in_object members fields :
  not_in (JObj members) fields = Some (filter (λ field, field ∉ members.*1) fields).
Proof.
  induction fields as [|field fields IH]; [done|].
  cbn [not_in]. rewrite IH. simpl. f_equal.
  case_bool_decide as Hin; rewrite dict_get_is_Some in Hin.
  - by rewrite filter_cons_False by (intros Hn; by apply Hn).
  - by rewrite filter_cons_True.
Qed.

Lemma filter_nil_iff {A} (P : A → Prop) `{∀ x, Decision (P x)} (l : list A) :
  filter P l = [] ↔ ∀ x, x ∈ l → ¬ P x.
Proof.
  induction l as [|x l IH].
  - split; [by intros _ ? ?%elem_of_nil|done].
  - destruct (decide (P x)).
    + rewrite filter_cons_True by done. split; [done|].
      intros Hall. exfalso. apply (Hall x); [left|done].
    + rewrite filter_cons_False by done. rewrite IH. split.
      * intros Hall y [->|Hy]%elem_of_cons; auto.
      * intros Hall y Hy. apply Hall. by right.
Qed.

(** The decorator either hands over to the view or answers by itself, and
    its own answer does not depend on the view. *)
Lemma validate_json_fields_passes {S} required optional (f : S → S * reply) req s :
  validate_json_fields required optional f req s =
    if passes required optional req then f s else (s, refusal required optional req).
Proof.
  unfold passes, refusal, validate_json_fields.
  repeat (case_match; simpl; try done).
Qed.

Lemma passes_object required optional req members :
  is_json req = true → get_json req = Some (JObj members) →
  (passes required optional req = true ↔
     members ≠ [] ∧
     (∀ field, field ∈ required → field ∈ members.*1) ∧
     (optional ≠ [] → required ≠ [] →
        ∀ key, key ∈ members.*1 → key ∈ required ++ optional)).
Proof.
  intros Hjson Hbody. unfold passes, validate_json_fields.
  rewrite Hjson, Hbody. simpl.
  case_bool_decide as Hempty; simpl.
  { split; [done|by intros [? _]]. }
  assert (Hreq : (if bool_decide (required = []) then Some []
                  else not_in (JObj members) required)
                 = Some (filter (λ field, field ∉ members.*1) required)).
  { case_bool_decide as Hr; [by subst|apply not_in_object]. }
  rewrite Hreq.
  destruct (filter (λ field, field ∉ members.*1) required) as [|field missing] eqn:Hmiss.
  - pose proof (proj1 (filter_nil_iff _ _) Hmiss) as Hall.
    assert (Hpresent : ∀ field, field ∈ required → field ∈ members.*1).
    { intros field Hf. destruct (decide (field ∈ members.*1)); [done|].
      by destruct (Hall field Hf). }
    destruct (decide (optional = [])) as [->|Hopt]; simpl.
    { split; [done|]. by intros _. }
    rewrite (bool_decide_eq_false_2 (optional = [])) by done. simpl.
    destruct (decide (required = [])) as [->|Hr]; simpl.
    { split; [done|]. by intros _. }
    rewrite (bool_decide_eq_false_2 (required = [])) by done. simpl.
    destruct (filter (λ field, field ∉ required ++ optional) members.*1)
      as [|key unexpected] eqn:Hunexp; simpl.
    + split; [|done]. intros _. do 2 (split; [done|]).
      intros _ _ key Hkey.
      destruct (decide (key ∈ required ++ optional)); [done|].
      by destruct (proj1 (filter_nil_iff _ _) Hunexp key Hkey).
    + split; [done|]. intros (_ & _ & Hkeys). exfalso.
      assert (Hin : key ∈ filter (λ field, field ∉ required ++ optional) members.*1)
        by (rewrite Hunexp; left).
      apply list_elem_of_filter in Hin as [Hout Hkey].
      by apply Hout, Hkeys.
  - simpl. split; [done|]. intros (_ & Hall & _). exfalso.
    assert (Hin : field ∈ filter (λ field, field ∉ members.*1) required)
      by (rewrite Hmiss; left).
    apply list_elem_of_filter in Hin as [Hout Hf]. by apply Hout, Hall.
Qed.

(** X6. For a body that is a JSON object [validate_json_fields] never
    raises. It lets the request through exactly when the object is not
    empty, has every required field, and (only if both lists of fields are
    given) has no key outside them; otherwise it answers 400. *)
Theorem validate_object required optional req members :
  is_json req = true → get_json req = Some (JObj members) →
  (passes required optional req = true ↔
     members ≠ [] ∧
     (∀ field, field ∈ required → field ∈ members.*1) ∧
     (optional ≠ [] → required ≠ [] →
        ∀ key, key ∈ members.*1 → key ∈ required ++ optional)) ∧
  (passes required optional req = false →
     ∃ p, refusal required optional req = FromApi p 400).
Proof.
  intros Hjson Hbody. split; [by apply passes_object|].
  unfold passes, refusal, validate_json_fields. rewrite Hjson, Hbody. simpl.
  replace (if bool_decide (required = []) then Some [] else not_in (JObj members) required)
    with (Some (filter (λ field, field ∉ members.*1) required))
    by (case_bool_decide; [by subst|by rewrite not_in_object]).
  repeat (case_match; simpl; try done); eauto.
Qed.

Lemma validate_object_witness :
  passes ["name"; "email"]%string ["phone"; "address"]%string
    (Request true "10.0.0.7"
       (Some (JObj [("email", JStr "a@b.c"); ("name", JStr "A")]%string))) = true.
Proof.
  apply (proj1 (validate_object ["name"; "email"]%string ["phone"; "address"]%string
                  (Request true "10.0.0.7"
                     (Some (JObj [("email", JStr "a@b.c"); ("name", JStr "A")]%string)))
                  [("email", JStr "a@b.c"); ("name", JStr "A")]%string eq_refl eq_refl)).
  split; [done|]. split.
  - intros field Hf. simpl. set_solver.
  - intros _ _ key Hk. simpl in *. set_solver.
Defined.

Lemma not_in_scalar data field fields :
  Py.contains field data = None → not_in data (field :: fields) = None.
Proof. intros H. cbn [not_in]. by rewrite H. Qed.

Lemma not_in_container data fields :
  (∀ field, is_Some (Py.contains field data)) →
  not_in data fields
  = Some (filter (λ field, Py.contains field data ≠ Some true) fields).
Proof.
  intros Hc. induction fields as [|field fields IH]; [done|].
  cbn [not_in]. rewrite IH. destruct (Hc field) as [[] Hf]; rewrite Hf.
  - by rewrite (filter_cons_False (λ f, Py.contains f data ≠ Some true))
      by (intros Hn; by apply Hn).
  - by rewrite (filter_cons_True (λ f, Py.contains f data ≠ Some true))
      by (by rewrite Hf).
Qed.

(** X7. Bodies that are not objects. A body that is false in Python (the
    empty object or array, the empty string, zero, [false], [null]) is
    answered 400 "Invalid JSON data" whatever the field lists are, even
    when no field is required. A non-zero number or [true] with a required
    field makes the membership test raise: the decorator answers nothing.
    An array or a string is searched like a container: with both field
    lists given it never reaches the view ([keys()] raises at the latest),
    and with required fields only it reaches the view exactly when it
    contains every required name. *)
Theorem validate_non_object required optional req data :
  is_json req = true → get_json req = Some data →
  (ApiV1.truthy data = false →
     passes required optional req = false ∧
     refusal required optional req = FromApi InvalidJsonData 400) ∧
  (ApiV1.truthy data = true → required ≠ [] →
     match data with
     | JNum _ | JBool _ =>
         passes required optional req = false ∧
         refusal required optional req = Raised Unhandled
     | JArr _ | JStr _ =>
         (optional ≠ [] → passes required optional req = false) ∧
         (optional = [] →
            (passes required optional req = true ↔
               ∀ field, field ∈ required → Py.contains field data = Some true))
     | _ => True
     end).
Proof.
  intros Hjson Hbody. unfold passes, refusal, validate_json_fields.
  rewrite Hjson, Hbody. simpl. split.
  - intros ->. done.
  - intros -> Hreq. simpl. rewrite (bool_decide_eq_false_2 (required = [])) by done.
    destruct required as [|field required]; [done|]. clear Hreq.
    assert (Hcontainer : ∀ d, (∀ f, is_Some (Py.contains f d)) →
      (∀ ks, ApiV1.keys d ≠ Some ks) →
      (optional ≠ [] →
       (match not_in d (field :: required) with
        | Some [] =>
            if negb (bool_decide (optional = [])) && negb (bool_decide (field :: required = []))
            then match ApiV1.keys d with
                 | Some ks =>
                     match filter (λ f, f ∉ (field :: required) ++ optional) ks with
                     | [] => (true, FromMiddleware (jsonify Plain))
                     | u :: us => (false, FromApi (UnexpectedFields (u :: us)) 400)
                     end
                 | None => (false, Raised Unhandled)
                 end
            else (true, FromMiddleware (jsonify Plain))
        | Some (f :: fs) => (false, FromApi (MissingRequiredFields (f :: fs)) 400)
        | None => (false, Raised Unhandled)
        end).1 = false) ∧
      (optional = [] →
       (match not_in d (field :: required) with
        | Some [] =>
            if negb (bool_decide (optional = [])) && negb (bool_decide (field :: required = []))
            then match ApiV1.keys d with
                 | Some ks =>
                     match filter (λ f, f ∉ (field :: required) ++ optional) ks with
                     | [] => (true, FromMiddleware (jsonify Plain))
                     | u :: us => (false, FromApi (UnexpectedFields (u :: us)) 400)
                     end
                 | None => (false, Raised Unhandled)
                 end
            else (true, FromMiddleware (jsonify Plain))
        | Some (f :: fs) => (false, FromApi (MissingRequiredFields (f :: fs)) 400)
        | None => (false, Raised Unhandled)
        end).1 = true ↔
       ∀ f, f ∈ field :: required → Py.contains f d = Some true)).
    { intros d Hc Hkeys. rewrite (not_in_container d _ Hc).
      destruct (filter (λ f, Py.contains f d ≠ Some true) (field :: required))
        as [|f fs] eqn:Hmiss.
      - pose proof (proj1 (filter_nil_iff _ _) Hmiss) as Hall. split.
        + intros Hopt. rewrite (bool_decide_eq_false_2 (optional = [])) by done.
          simpl. destruct (ApiV1.keys d) as [ks|] eqn:Hk; [by destruct (Hkeys ks)|done].
        + intros ->. simpl. split; [|done]. intros _ f Hf.
          destruct (decide (Py.contains f d = Some true)); [done|].
          by destruct (Hall f Hf).
      - split; [done|]. intros _. simpl. split; [done|]. intros Hall. exfalso.
        assert (Hin : f ∈ filter (λ f, Py.contains f d ≠ Some true) (field :: required))
          by (rewrite Hmiss; left).
        apply list_elem_of_filter in Hin as [Hout Hf]. by apply Hout, Hall. }
    destruct data as [|b|n|str|items|members]; try done.
    + apply (Hcontainer (JStr str)); [by eexists|done].
    + apply (Hcontainer (JArr items)); [by eexists|done].
Qed.

Lemma validate_non_object_witness :
  passes ["message"]%string [] (Request true "10.0.0.7" (Some (JObj []))) = false ∧
  passes ["message"]%string [] (Request true "10.0.0.7" (Some (JArr [JStr "message"]))) = true.
Proof.
  split.
  - apply (proj1 (validate_non_object ["message"]%string []
                    (Request true "10.0.0.7" (Some (JObj []))) (JObj []) eq_refl eq_refl)
             eq_refl).
  - assert (Hreq : ["message"%string] ≠ []) by done.
    apply (proj2 (proj2 (validate_non_object ["message"]%string []
                           (Request true "10.0.0.7" (Some (JArr [JStr "message"])))
                           (JArr [JStr "message"]) eq_refl eq_refl) eq_refl Hreq) eq_refl).
    intros field ->%list_elem_of_singleton. reflexivity.
Defined.

(** The two decorators restated for replies are the ones of
    [utils/middleware.py]. *)
Lemma rate_limit_by_ip_agrees {S} max_requests per_seconds (f : S → S * response)
    req now rc s :
  rate_limit_by_ip max_requests per_seconds
    (λ s, ((f s).1, FromMiddleware (f s).2)) req now (rc, s)
  = (let '(rc', s', r) :=
       Middleware.decorated_function max_requests per_seconds f (remote_addr req) now rc s in
     ((rc', s'), FromMiddleware r)).
Proof.
  unfold rate_limit_by_ip.
  rewrite MiddlewareFacts.allow_unfold, MiddlewareFacts.decorated_function_unfold.
  cbv zeta. by case_bool_decide.
Qed.

Lemma require_json_agrees {S} (f : S → S * response) req s :
  require_json (λ s, ((f s).1, FromMiddleware (f s).2)) req s
  = ((Middleware.require_json f req s).1, FromMiddleware (Middleware.require_json f req s).2).
Proof. unfold require_json, Middleware.require_json. by destruct (is_json req). Qed.

(** The stack [@require_json @validate_json_fields @rate_limit_by_ip
    @log_execution_time] around a view. *)
Lemma stack_unfold {S} required optional max_requests per_seconds (view : S → S * reply)
    req now rc s :
  require_json
    (validate_json_fields required optional
       (rate_limit_by_ip max_requests per_seconds (log_execution_time view) req now) req)
    req (rc, s)
  = if negb (is_json req) then ((rc, s), FromMiddleware (Response ContentTypeError 400))
    else if negb (passes required optional req)
    then ((rc, s), refusal required optional req)
    else
      let rc' := (Middleware.allow max_requests per_seconds (remote_addr req) now rc).1 in
      if (Middleware.allow max_requests per_seconds (remote_addr req) now rc).2
      then ((rc', (view s).1), (view s).2)
      else ((rc', s),
            FromMiddleware (Response (RateLimitExceeded max_requests per_seconds) 429)).
Proof.
  unfold require_json. destruct (is_json req) eqn:Hjson; simpl; [|done].
  rewrite validate_json_fields_passes.
  destruct (passes required optional req); simpl; [|done].
  unfold rate_limit_by_ip, log_execution_time.
  destruct (Middleware.allow _ _ _ _ _) as [rc' []]; simpl; [|done].
  by destruct (view s).
Qed.

(** X8. In the routes of [api_v1] the fields are validated before the
    limiter is asked: a request that is not JSON or fails validation leaves
    the limiter's dictionary as it was and so uses none of the caller's
    budget, while a request that passes validation is checked (and, when
    admitted, recorded) whatever the view then answers. *)
Theorem validation_before_limiter now req rc :
  let '(rc', r) := echo_route now req rc in
  (is_json req = false ∨ passes ["message"%string] [] req = false → rc' = rc) ∧
  (is_json req = true → passes ["message"%string] [] req = true →
     rc' = (Middleware.allow 50 3600 (remote_addr req) now rc).1 ∧
     ((Middleware.allow 50 3600 (remote_addr req) now rc).2 = true →
        Middleware.get rc' (remote_addr req)
        = Middleware.clean (now - 3600) (Middleware.get rc (remote_addr req)) ++ [now]) ∧
     ((Middleware.allow 50 3600 (remote_addr req) now rc).2 = false →
        r = FromMiddleware (Response (RateLimitExceeded 50 3600) 429))).
Proof.
  unfold echo_route. rewrite stack_unfold.
  destruct (is_json req); simpl.
  - destruct (passes _ _ req); simpl.
    + rewrite MiddlewareFacts.allow_unfold. cbv zeta.
      case_bool_decide; simpl; (split; [by intros [|]|]); intros _ _;
        (split; [done|]); (split; [|done]); intros ?; try done;
        by rewrite MiddlewareFacts.get_insert_eq.
    + split; [done|]. by intros _ ?.
  - split; [done|]. by intros ?.
Qed.

Lemma validation_before_limiter_witness :
  (echo_route 100 (Request true "10.0.0.7" (Some (JObj []))) ∅).1 = ∅.
Proof.
  pose proof (validation_before_limiter 100 (Request true "10.0.0.7" (Some (JObj []))) ∅) as H.
  destruct (echo_route _ _ _) as [rc' r]. destruct H as [H _].
  apply H. by right.
Defined.

Lemma refusal_cases required optional req :
  is_json req = true → passes required optional req = false →
  (∃ e, refusal required optional req = Raised e) ∨
  refusal required optional req = FromApi InvalidJsonData 400 ∨
  (∃ missing_fields,
     refusal required optional req = FromApi (MissingRequiredFields missing_fields) 400) ∨
  (∃ unexpected_fields,
     refusal required optional req = FromApi (UnexpectedFields unexpected_fields) 400).
Proof.
  unfold passes, refusal, validate_json_fields. intros ->. simpl.
  repeat (case_match; simpl; try done); intros _; eauto.
Qed.

(** X9. The echo route answers 200 exactly when the request is JSON, its
    body is an object whose [message] is a string, and the limiter admits
    the caller; the answer then echoes that message. A [message] that is
    not a string (a number, [null], a list, an object) passes validation
    and the limiter, and is answered 500, not 400. *)
Theorem echo_route_ok now req rc :
  let r := (echo_route now req rc).2 in
  (status r = Some 200 ↔
     is_json req = true ∧
     (∃ members message,
        get_json req = Some (JObj members) ∧
        Py.dict_get "message" members = Some (JStr message)) ∧
     (Middleware.allow 50 3600 (remote_addr req) now rc).2 = true) ∧
  (∀ message code,
     r = FromApi (Echo message) code →
     code = 200 ∧
     ∃ members, get_json req = Some (JObj members) ∧
                Py.dict_get "message" members = Some (JStr message)) ∧
  (∀ members v,
     is_json req = true → get_json req = Some (JObj members) →
     Py.dict_get "message" members = Some v →
     (Middleware.allow 50 3600 (remote_addr req) now rc).2 = true →
     (∀ message, v ≠ JStr message) →
     r = FromApi EchoFailed 500).
Proof.
  cbv zeta. unfold echo_route. rewrite stack_unfold.
  assert (Hecho : ∀ message code,
            echo req = FromApi (Echo message) code →
            code = 200 ∧
            ∃ members, get_json req = Some (JObj members) ∧
                       Py.dict_get "message" members = Some (JStr message)).
  { intros message code. unfold echo.
    destruct (get_json req) as [[| | | | |members]|]; simpl; try done.
    destruct (Py.dict_get "message" members) as [[| | |m| |]|] eqn:Hm; simpl; try done.
    intros [= <- <-]. split; [done|]. by exists members. }
  destruct (is_json req) eqn:Hjson; simpl.
  2:{ split; [split; [done|by intros [? _]]|]. split; [done|]. by intros. }
  destruct (passes ["message"%string] [] req) eqn:Hpass; simpl.
  - destruct (Middleware.allow 50 3600 (remote_addr req) now rc) as [rc' []]; simpl.
    + split; [|split].
      * unfold echo. destruct (get_json req) as [data|] eqn:Hbody; simpl.
        -- destruct data as [| | | | |members]; simpl;
             try (split; [done|by intros (_ & (? & ? & ? & _) & _)]).
           destruct (Py.dict_get "message" members) as [v|] eqn:Hv; simpl.
           ++ destruct v; simpl;
                try (split; [done|intros (_ & (? & ? & ? & ?) & _); congruence]).
              split; [|done]. intros _. split; [done|]. split; [|done]. eauto.
           ++ split; [done|]. intros (_ & (? & ? & ? & ?) & _). congruence.
        -- split; [done|]. by intros (_ & (? & ? & ? & _) & _).
      * apply Hecho.
      * intros members v _ Hbody Hv _ Hns. unfold echo. rewrite Hbody. simpl.
        rewrite Hv. simpl. destruct v; try done. by destruct (Hns s).
    + split; [split; [done|by intros (_ & _ & ?)]|]. split; [done|]. by intros.
  - destruct (refusal_cases _ _ _ Hjson Hpass) as [[e ->]|[->|[[m ->]|[u ->]]]];
      (split; [split; [done|]|split; [done|]]);
      try (intros (_ & (members & message & Hbody & Hm) & _));
      try (intros members v _ Hbody Hm _ _);
      exfalso;
      (assert (Hp : passes ["message"%string] [] req = true); [|congruence]);
      apply (passes_object ["message"%string] [] req members Hjson Hbody);
      (split; [intros ->; done|]); (split; [|done]);
      intros field ->%list_elem_of_singleton; apply dict_get_is_Some; by eexists.
Qed.

Lemma echo_route_ok_witness :
  status (echo_route 100 (Request true "10.0.0.7"
                            (Some (JObj [("message"%string, JStr "hello world")]))) ∅).2
  = Some 200.
Proof.
  apply (proj1 (echo_route_ok 100 (Request true "10.0.0.7"
                  (Some (JObj [("message"%string, JStr "hello world")]))) ∅)).
  split; [done|]. split; [|done]. by eexists _, _.
Defined.

(** With both field lists given, only an object reaches the view. *)
Lemma passes_both_object required optional req :
  required ≠ [] → optional ≠ [] →
  is_json req = true → passes required optional req = true →
  ∃ members, get_json req = Some (JObj members).
Proof.
  intros Hr Ho Hjson Hpass. unfold passes, validate_json_fields in Hpass.
  rewrite Hjson in Hpass. simpl in Hpass.
  destruct (get_json req) as [data|]; [|done].
  rewrite (bool_decide_eq_false_2 (required = [])),
    (bool_decide_eq_false_2 (optional = [])) in Hpass by done.
  destruct required as [|field required]; [done|].
  destruct data as [|b|n|str|items|members]; [..|by exists members]; exfalso;
    cbn [not_in Py.contains ApiV1.keys] in Hpass;
    repeat (case_match; simpl in *; try done).
Qed.

(** X10. The route that creates a user. Behind its decorators the view sees
    an object that has [name] and [email], so its [except] branch is
    reached only through the test ['@' not in email]: an email that is
    [null], a number or a boolean is answered 500. Any other email is
    accepted as soon as it contains ["@"], whether as a substring of a
    string, an item of a list or a key of an object. The new user's id is
    the clock's reading, and fields that were not sent are [null]. *)
Theorem create_user_route_spec now_limiter now req rc :
  is_json req = true →
  passes ["name"; "email"]%string ["phone"; "address"]%string req = true →
  (Middleware.allow 20 3600 (remote_addr req) now_limiter rc).2 = true →
  ∃ members name email,
    get_json req = Some (JObj members) ∧
    Py.dict_get "name" members = Some name ∧
    Py.dict_get "email" members = Some email ∧
    (create_user_route now_limiter now req rc).2
    = match Py.contains "@" email with
      | Some true =>
          FromApi (UserCreated now name email
                     (default JNull (Py.dict_get "phone" members))
                     (default JNull (Py.dict_get "address" members))) 201
      | Some false => FromApi InvalidEmail 400
      | None => FromApi CreateFailed 500
      end ∧
    (Py.contains "@" email = None ↔
       email = JNull ∨ (∃ b, email = JBool b) ∨ (∃ n, email = JNum n)).
Proof.
  intros Hjson Hpass Hallow.
  destruct (λ Hr Ho, passes_both_object _ _ req Hr Ho Hjson Hpass) as [members Hbody];
    [done..|].
  pose proof (proj1 (passes_object _ _ req members Hjson Hbody) Hpass)
    as (_ & Hreq & _).
  destruct (proj2 (dict_get_is_Some "name" members)) as [name Hname];
    [apply Hreq; set_solver|].
  destruct (proj2 (dict_get_is_Some "email" members)) as [email Hemail];
    [apply Hreq; set_solver|].
  exists members, name, email. do 3 (split; [done|]). split.
  - unfold create_user_route. rewrite stack_unfold, Hjson, Hpass. simpl.
    rewrite Hallow. simpl. unfold create_user. rewrite Hbody. simpl.
    rewrite Hemail, Hname. simpl. by destruct (Py.contains "@" email) as [[]|].
  - destruct email; simpl; split; try done; naive_solver.
Qed.

Lemma create_user_route_spec_witness :
  ∃ members name email,
    Some (JObj [("name", JStr "A"); ("email", JArr [JStr "@"])]%string)
    = Some (JObj members) ∧
    Py.dict_get "name" members = Some name ∧
    Py.dict_get "email" members = Some email ∧
    (create_user_route 100 100
       (Request true "10.0.0.7"
          (Some (JObj [("name", JStr "A"); ("email", JArr [JStr "@"])]%string))) ∅).2
    = match Py.contains "@" email with
      | Some true =>
          FromApi (UserCreated 100 name email
                     (default JNull (Py.dict_get "phone" members))
                     (default JNull (Py.dict_get "address" members))) 201
      | Some false => FromApi InvalidEmail 400
      | None => FromApi CreateFailed 500
      end ∧
    (Py.contains "@" email = None ↔
       email = JNull ∨ (∃ b, email = JBool b) ∨ (∃ n, email = JNum n)).
Proof.
  apply (create_user_route_spec 100 100
           (Request true "10.0.0.7"
              (Some (JObj [("name", JStr "A"); ("email", JArr [JStr "@"])]%string))) ∅);
    reflexivity.
Defined.

Lemma reverse_string_involutive s : reverse_string (reverse_string s) = s.
Proof.
  unfold reverse_string.
  by rewrite String.list_ascii_of_string_of_list_ascii, rev_involutive,
    String.string_of_list_ascii_of_string.
Qed.

Lemma length_list_ascii_of_string s :
  length (String.list_ascii_of_string s) = String.length s.
Proof. induction s as [|c s IH]; simpl; congruence. Qed.

Lemma length_reverse_string s : String.length (reverse_string s) = String.length s.
Proof.
  unfold reverse_string.
  rewrite <- (length_list_ascii_of_string (String.string_of_list_ascii _)).
  by rewrite String.list_ascii_of_string_of_list_ascii, length_rev,
    length_list_ascii_of_string.
Qed.

Section ProcessFacts.
Variable upper : string → string.
Variable str : json → string.
Variable sum : list json → option json.

(** X11. The operation [reverse] of the processing route never fails and
    undoes itself: reversing its result gives the data back, for lists,
    strings and everything else; and [count] does not tell the data from
    its reversal. *)
Theorem reverse_twice data :
  ∃ result,
    operate upper str sum (JStr "reverse") data = inl result ∧
    operate upper str sum (JStr "reverse") result = inl data ∧
    operate upper str sum (JStr "count") result = operate upper str sum (JStr "count") data.
Proof.
  unfold operate. simpl.
  destruct data as [|b|n|s|items|members]; eexists; (split; [reflexivity|]); simpl;
    rewrite ?rev_involutive, ?reverse_string_involutive, ?length_rev,
      ?length_reverse_string; done.
Qed.

End ProcessFacts.

End ApiV1Facts.

(** ** The model globals and the view, continued *)

Module ViewFacts.
Import Whisper Transcribe.
#[local] Set Warnings "-clear-no-such-hyp".

(** X14. [get_model] returns what it leaves in the global [model]. It
    returns [None] only when there was no model and the load raised, and
    then it changes nothing, not even [last_used]; it never replaces a model
    that is loaded; and after a call that returned a model every later call
    returns that model whatever the loader would do. *)
Theorem get_model_post loaded now g :
  let '(g', r) := get_model loaded now g in
  r = model g' ∧
  (r = None ↔ model g = None ∧ loaded = None) ∧
  (r = None → g' = g) ∧
  (is_Some r → last_used g' = now) ∧
  (∀ m, model g = Some m → r = Some m) ∧
  (∀ loaded' now', is_Some r → get_model loaded' now' g' = (Globals r now', r)).
Proof.
  unfold get_model, load_whisper_model.
  destruct g as [[m|] last], loaded as [m'|]; simpl;
    repeat split; intros; simplify_eq/=; try done; try (by destruct H); try naive_solver.
Qed.

Lemma get_model_post_witness :
  get_model None 200 (get_model (Some 1%nat) 100 (Globals None 0)).1
  = (Globals (Some 1%nat) 200, Some 1%nat).
Proof.
  pose proof (get_model_post (Some 1%nat) 100 (Globals None 0)) as H.
  destruct (get_model (Some 1%nat) 100 (Globals None 0)) as [g' r] eqn:Hg.
  destruct H as (_ & _ & _ & _ & _ & H).
  injection Hg as <- <-. apply (H None 200). by eexists.
Defined.

Section View.
Variable b64decode : json → option (list Z).

(** X15. The view sweeps before it asks for the model. A request that
    finds a model idle for more than 600 seconds throws it away and loads
    a new one; if that load raises the request is answered 503 and the
    model is gone, although a usable one was in memory when the request
    arrived. A request within 600 seconds uses the model that is there
    and does not call the loader. *)
Theorem idle_request_reloads e req w m :
  model (globals w) = Some m →
  (600 < time_sweep e - last_used (globals w) →
     acquired e w = loaded e ∧
     (loaded e = None →
        transcribe_audio b64decode e req w
        = (World (Globals None (last_used (globals w))) (tmp w) (trace w),
           Response ModelNotAvailable 503))) ∧
  (time_sweep e - last_used (globals w) ≤ 600 →
     acquired e w = Some m ∧
     globals (after_acquire e w) = Globals (Some m) (time_touch e)).
Proof.
  intros Hm. unfold acquired, after_acquire, transcribe_audio.
  rewrite WhisperFacts.cleanup_model_if_idle_spec.
  destruct w as [[gm last] files events]. simpl in *. subst gm. split.
  - intros Hidle. rewrite bool_decide_eq_true_2 by (split; [by eexists|done]).
    unfold get_model, load_whisper_model. simpl.
    destruct (loaded e) as [m'|]; simpl; [done|]. split; [done|]. by intros _.
  - intros Hfresh. rewrite bool_decide_eq_false_2 by (intros [_ ?]; lia). done.
Qed.

(** X16. The limiter stands before the view. An admitted JSON request is
    recorded under the caller's address before the view runs, so requests
    answered 400, 413, 500 or 503 use up the caller's budget like
    successful ones. A request answered 429 reaches nothing behind the
    limiter: the model is neither swept nor loaded, no file is written and
    [last_used] stays as it was. *)
Theorem limiter_before_view e req rc w :
  is_json req = true →
  let '(rc', w', r) := transcribe_route b64decode e req rc w in
  rc' = (Middleware.allow 20 3600 (remote_addr req) (time_limiter e) rc).1 ∧
  ((Middleware.allow 20 3600 (remote_addr req) (time_limiter e) rc).2 = false →
     w' = w ∧ r = Response (RateLimitExceeded 20 3600) 429) ∧
  ((Middleware.allow 20 3600 (remote_addr req) (time_limiter e) rc).2 = true →
     Middleware.get rc' (remote_addr req)
     = Middleware.clean (time_limiter e - 3600) (Middleware.get rc (remote_addr req))
       ++ [time_limiter e] ∧
     (w', r) = transcribe_audio b64decode e req w).
Proof.
  intros Hjson. rewrite (TranscribeFacts.transcribe_route_json b64decode) by done.
  rewrite MiddlewareFacts.decorated_function_unfold, MiddlewareFacts.allow_unfold.
  cbv zeta. case_bool_decide; simpl.
  - split; [done|]. split; [done|]. by intros.
  - split; [done|]. split; [by intros|]. intros _.
    rewrite MiddlewareFacts.get_insert_eq. split; [done|].
    by destruct (transcribe_audio b64decode e req w).
Qed.

End View.

Lemma idle_request_reloads_witness :
  transcribe_audio Base64.b64decode
    (Env 1000 1000 1000 None (Some "/tmp/tmpk3v9qz.wav"%string) true true (λ _, None) true)
    (post_audio (JStr "QUJD")) (World (Globals (Some 1%nat) 0) ∅ [])
  = (World (Globals None 0) ∅ [], Response ModelNotAvailable 503).
Proof.
  apply (proj1 (idle_request_reloads Base64.b64decode
                  (Env 1000 1000 1000 None (Some "/tmp/tmpk3v9qz.wav"%string) true true
                     (λ _, None) true)
                  (post_audio (JStr "QUJD")) (World (Globals (Some 1%nat) 0) ∅ []) 1%nat
                  eq_refl)); [simpl; lia|reflexivity].
Defined.

Lemma limiter_before_view_witness :
  let '(rc', w', r) :=
    transcribe_route Base64.b64decode (calm 1000)
      (Request true "10.0.0.7" (Some (JObj []))) ∅ cold in
  Middleware.get rc' "10.0.0.7" = [1000] ∧ r = Response MissingAudioData 400.
Proof.
  pose proof (limiter_before_view Base64.b64decode (calm 1000)
                (Request true "10.0.0.7" (Some (JObj []))) ∅ cold eq_refl) as H.
  destruct (transcribe_route _ _ _ _ _) as [[rc' w'] r].
  destruct H as (_ & _ & H). destruct (H eq_refl) as [Hget Hview].
  split; [exact Hget|]. by injection Hview as _ ->.
Defined.

Lemma dict_get_elem_of {A} key (members : list (string * A)) v :
  Py.dict_get key members = Some v → (key, v) ∈ members.
Proof.
  induction members as [|[k x] members IH]; simpl; [done|].
  case_bool_decide as Hk.
  - intros [= ->]. subst k. left.
  - intros Hv. right. by apply IH.
Qed.

(** X17. A successful answer always names one of the thirteen supported
    languages, with the name the table gives for its code: the code the
    model detected when it is in the table, and English for every other
    detection. No detection makes the view fail or answer with a code
    outside the table. *)
Theorem response_data_supported text language :
  ∃ transcribed_text detected_language language_name,
    response_data text language
    = Response (Transcription transcribed_text detected_language language_name) 200 ∧
    (detected_language, language_name) ∈ SUPPORTED_LANGUAGES ∧
    detected_language = (if is_supported_language language then language else "en"%string) ∧
    (is_supported_language language = false → language_name = "English"%string).
Proof.
  unfold response_data. destruct (is_supported_language language) eqn:Hs.
  - unfold is_supported_language in Hs. apply bool_decide_eq_true in Hs as [name Hname].
    exists (Py.strip text), language, name. rewrite Hname. split; [done|].
    split; [by apply dict_get_elem_of|]. by split.
  - exists (Py.strip text), "en"%string, "English"%string. split; [done|].
    split; [by apply (dict_get_elem_of "en")|]. by split.
Qed.

Lemma response_data_supported_witness :
  ∃ transcribed_text detected_language language_name,
    response_data "bonjour" "fr"
    = Response (Transcription transcribed_text detected_language language_name) 200 ∧
    language_name = "English"%string.
Proof.
  destruct (response_data_supported "bonjour" "fr")
    as (transcribed_text & detected_language & language_name & Hr & _ & _ & Hname).
  exists transcribed_text, detected_language, language_name.
  split; [exact Hr|]. by apply Hname.
Defined.

Lemma fresh_insert (files : gmap string (list Z)) name x :
  files !! name = None →
  files ⊆ <[name := x]> files ∧
  ∀ path, is_Some (<[name := x]> files !! path) → is_Some (files !! path) ∨ name = path.
Proof.
  intros Hfresh. split; [by apply insert_subseteq|].
  intros path. destruct (decide (name = path)) as [|Hne]; [by right|].
  rewrite lookup_insert_ne by done. by left.
Qed.

(** What the inner [try ... finally] does to the world. *)
Lemma with_temp_file_files e m audio_bytes w :
  let '(w', r) := with_temp_file e m audio_bytes w in
  globals w' = globals w ∧
  tmp w ⊆ tmp w' ∧
  (∀ path, is_Some (tmp w' !! path) → is_Some (tmp w !! path) ∨ temp_name e = Some path) ∧
  (r = None ∨ ∃ text language, r = Some (response_data text language)).
Proof.
  unfold with_temp_file, try_body.
  destruct (temp_name e) as [name|]; [|simpl; eauto 10].
  case_bool_decide as Htaken; [simpl; eauto 10|].
  assert (Hfresh : tmp w !! name = None) by by apply eq_None_not_Some.
  pose proof (fresh_insert (tmp w) name [] Hfresh) as [Hsub0 Hdom0].
  pose proof (fresh_insert (tmp w) name audio_bytes Hfresh) as [Hsub1 Hdom1].
  assert (Hdom0' : ∀ path, is_Some (<[name := []]> (tmp w) !! path) →
                           is_Some (tmp w !! path) ∨ Some name = Some path)
    by (intros path Hp; destruct (Hdom0 path Hp); [by left|right; congruence]).
  assert (Hdom1' : ∀ path, is_Some (<[name := audio_bytes]> (tmp w) !! path) →
                           is_Some (tmp w !! path) ∨ Some name = Some path)
    by (intros path Hp; destruct (Hdom1 path Hp); [by left|right; congruence]).
  destruct (write_ok e); simpl; [|eauto 10].
  rewrite insert_insert_eq.
  assert (Hfinal : ∀ w1, tmp w1 = <[name := audio_bytes]> (tmp w) → globals w1 = globals w →
            globals (finally e (Some name) w1) = globals w ∧
            tmp w ⊆ tmp (finally e (Some name) w1) ∧
            (∀ path, is_Some (tmp (finally e (Some name) w1) !! path) →
                     is_Some (tmp w !! path) ∨ Some name = Some path)).
  { intros w1 Htmp Hg. unfold finally. rewrite Htmp, lookup_insert_eq.
    rewrite (bool_decide_eq_true_2 (is_Some (Some audio_bytes))) by by eexists.
    destruct (bool_decide (name = ""%string)); simpl; [by rewrite Htmp|].
    destruct (unlink_ok e); simpl; rewrite ?Htmp; [|done].
    rewrite delete_insert_id by done. split; [done|]. split; [done|]. by left. }
  destruct (close_ok e); simpl.
  - rewrite lookup_insert_eq. simpl.
    destruct (inference e audio_bytes) as [[text language]|]; simpl;
      (destruct (Hfinal (log (Infer m name (Some audio_bytes))
                   (log (TempWrite name audio_bytes)
                      (set_tmp (<[name := audio_bytes]> (tmp w))
                         (log (TempCreate name) (set_tmp (<[name := []]> (tmp w)) w))))))
         as (? & ? & ?); [done..|]); eauto 10.
  - destruct (Hfinal (log (TempWrite name audio_bytes)
                   (set_tmp (<[name := audio_bytes]> (tmp w))
                      (log (TempCreate name) (set_tmp (<[name := []]> (tmp w)) w)))))
      as (? & ? & ?); [done..|]; eauto 10.
Qed.

Section Answers.
Variable b64decode : json → option (list Z).

(** X18. Whatever the request and whatever fails, the view answers with
    one of 200, 400, 413, 500 and 503, and a 200 carries a transcription.
    It only adds to the log of events, and it never removes or changes a
    file under [/tmp] that was there before the call: afterwards every
    earlier file is there with its contents, and the only name that can be
    new is the one the temporary file was given. *)
Theorem transcribe_audio_answers e req w :
  let '(w', r) := transcribe_audio b64decode e req w in
  status_code r ∈ [200; 400; 413; 500; 503] ∧
  (status_code r = 200 → ∃ text language, r = response_data text language) ∧
  (∃ events, trace w' = trace w ++ events) ∧
  tmp w ⊆ tmp w' ∧
  (∀ path, is_Some (tmp w' !! path) → is_Some (tmp w !! path) ∨ temp_name e = Some path).
Proof.
  assert (Hkeep : ∀ g r,
            status_code r ∈ [400; 413; 500; 503] →
            status_code r ∈ [200; 400; 413; 500; 503] ∧
            (status_code r = 200 → ∃ text language, r = response_data text language) ∧
            (∃ events, trace (World g (tmp w) (trace w)) = trace w ++ events) ∧
            tmp w ⊆ tmp (World g (tmp w) (trace w)) ∧
            (∀ path, is_Some (tmp (World g (tmp w) (trace w)) !! path) →
                     is_Some (tmp w !! path) ∨ temp_name e = Some path)).
  { intros g r Hr. split; [set_solver|]. split; [intros Hc; rewrite Hc in Hr; set_solver|].
    split; [exists []; by rewrite app_nil_r|]. split; [done|]. by left. }
  unfold transcribe_audio. cbv zeta.
  destruct (get_model _ _ _) as [g [m|]]; [|apply Hkeep; set_solver].
  destruct (get_json req) as [data|]; [|apply Hkeep; set_solver].
  destruct (Py.contains "audio_data" data) as [[]|]; [|apply Hkeep; set_solver..].
  destruct (Py.getitem data "audio_data") as [audio_data|]; [|apply Hkeep; set_solver].
  destruct (Py.len audio_data) as [n|]; [|apply Hkeep; set_solver].
  destruct (5 * 1024 * 1024 <? n); [apply Hkeep; set_solver|].
  destruct (b64decode audio_data) as [audio_bytes|].
  2:{ split; [set_solver|]. split; [done|]. split; [by eexists|]. split; [done|]. by left. }
  pose proof (with_temp_file_files e m audio_bytes
                (log (B64Decode audio_data) (World g (tmp w) (trace w)))) as Hfiles.
  pose proof (TranscribeFacts.with_temp_file_trace e m audio_bytes
                (log (B64Decode audio_data) (World g (tmp w) (trace w)))) as [rest Htrace].
  destruct (with_temp_file _ _ _ _) as [w' r]. simpl in Htrace, Hfiles.
  destruct Hfiles as (_ & Hsub & Hdom & Hr).
  split; [|split; [|split; [|split]]]; try done.
  - destruct Hr as [->|(text & language & ->)]; simpl; [set_solver|].
    unfold response_data, jsonify. simpl. set_solver.
  - destruct Hr as [->|(text & language & ->)]; simpl; [done|]. eauto.
  - exists (B64Decode audio_data :: rest). by rewrite Htrace, <- app_assoc.
Qed.

End Answers.

Section Faults.
Variable b64decode : json → option (list Z).

(** X19. A write that raises leaks the temporary file. The path is only
    remembered after the write, so when [temp_audio.write] raises (a full
    disk) the [finally] block has no path to unlink: the request is
    answered 500, the file that [NamedTemporaryFile] created stays under
    [/tmp], and no unlink is attempted. *)
Theorem write_fault_leaks e req w m members audio_data n audio_bytes name :
  acquired e w = Some m →
  get_json req = Some (JObj members) →
  Py.dict_get "audio_data" members = Some audio_data →
  Py.len audio_data = Some n → n ≤ 5 * 1024 * 1024 →
  b64decode audio_data = Some audio_bytes →
  temp_name e = Some name → tmp w !! name = None →
  write_ok e = false →
  let '(w', r) := transcribe_audio b64decode e req w in
  r = Response CouldNotTranscribe 500 ∧
  is_Some (tmp w' !! name) ∧
  trace w' = trace w ++ [B64Decode audio_data; TempCreate name] ∧
  (∀ path, Unlink path ∈ trace w' → Unlink path ∈ trace w).
Proof.
  intros Hm Hbody Haudio Hlen Hsize Hdecode Hname Hfresh Hwrite.
  rewrite (TranscribeFacts.transcribe_audio_parsed b64decode e req w m (JObj members))
    by done.
  cbv zeta. simpl. rewrite Haudio. simpl.
  rewrite Hlen. simpl.
  rewrite (proj2 (Z.ltb_ge _ _) Hsize), Hdecode.
  unfold with_temp_file, try_body. rewrite Hname. simpl.
  rewrite bool_decide_eq_false_2 by (rewrite Hfresh; by intros [? ?]).
  rewrite Hwrite. simpl. split; [done|]. rewrite lookup_insert_eq.
  split; [by eexists|]. rewrite <- app_assoc. split; [done|].
  intros path. rewrite !elem_of_app, !elem_of_cons, elem_of_nil. naive_solver.
Qed.

End Faults.

Lemma write_fault_leaks_witness :
  let '(w', r) :=
    transcribe_audio Base64.b64decode (disk_full 1000) (post_audio (JStr "QUJD")) cold in
  r = Response CouldNotTranscribe 500 ∧
  is_Some (tmp w' !! "/tmp/tmpk3v9qz.wav"%string) ∧
  trace w' = trace cold ++ [B64Decode (JStr "QUJD"); TempCreate "/tmp/tmpk3v9qz.wav"] ∧
  (∀ path, Unlink path ∈ trace w' → Unlink path ∈ trace cold).
Proof.
  apply (write_fault_leaks Base64.b64decode (disk_full 1000) (post_audio (JStr "QUJD")) cold
           1%nat [("audio_data"%string, JStr "QUJD")] (JStr "QUJD") 4 [65; 66; 67]
           "/tmp/tmpk3v9qz.wav"); try reflexivity; lia.
Defined.

Lemma transcribe_audio_answers_witness :
  ∃ text language,
    (transcribe_audio Base64.b64decode (calm 1000) (post_audio (JStr "QUJD")) cold).2
    = response_data text language.
Proof.
  generalize (transcribe_audio_answers Base64.b64decode (calm 1000)
                (post_audio (JStr "QUJD")) cold).
  destruct (transcribe_audio Base64.b64decode (calm 1000) (post_audio (JStr "QUJD")) cold)
    as [w' r] eqn:Hrun.
  intros (_ & H & _). apply H.
  change r with (w', r).2. rewrite <- Hrun. reflexivity.
Defined.

End ViewFacts.

(** ** The decoder, continued *)

Module DecoderFacts.
Import Base64 Transcribe.
#[local] Set Warnings "-clear-no-such-hyp".

Lemma uchar_byte x : is_byte (uchar x).
Proof.
  unfold is_byte, uchar. change 255 with (Z.ones 8). rewrite Z.land_ones by lia.
  pose proof (Z.mod_pos_bound x (2 ^ 8)). lia.
Qed.

(** The decoder's loop: every output byte takes characters of the input,
    three bytes at most for four characters read. *)
Lemma a2b_loop_size ascii_data quad_pos leftchar pads bin_data out :
  a2b_loop ascii_data quad_pos leftchar pads bin_data = Some out →
  4 * Z.of_nat (length out)
  ≤ 4 * Z.of_nat (length bin_data) + 3 * Z.of_nat (length ascii_data)
    + (if quad_pos =? 0 then 0 else if quad_pos =? 1 then 3
       else if quad_pos =? 2 then 2 else 1) ∧
  (Forall is_byte bin_data → Forall is_byte out).
Proof.
  revert quad_pos leftchar pads bin_data.
  induction ascii_data as [|this_ch ascii_data IH]; intros quad_pos leftchar pads bin_data.
  - simpl. destruct (quad_pos =? 0); [|done]. intros [= ->]. split; [lia|done].
  - cbn [a2b_loop]. rewrite length_cons.
    assert (Hskip : a2b_loop ascii_data quad_pos leftchar pads bin_data = Some out →
              4 * Z.of_nat (length out)
              ≤ 4 * Z.of_nat (length bin_data) + 3 * Z.of_nat (S (length ascii_data))
                + (if quad_pos =? 0 then 0 else if quad_pos =? 1 then 3
                   else if quad_pos =? 2 then 2 else 1) ∧
              (Forall is_byte bin_data → Forall is_byte out)).
    { intros [Hlen Hbytes]%IH. split; [lia|done]. }
    assert (Hpush : ∀ x q' l',
              a2b_loop ascii_data q' l' 0 (bin_data ++ [uchar x]) = Some out →
              (if q' =? 0 then 0 else if q' =? 1 then 3 else if q' =? 2 then 2 else 1) + 1
              ≤ (if quad_pos =? 0 then 0 else if quad_pos =? 1 then 3
                 else if quad_pos =? 2 then 2 else 1) →
              4 * Z.of_nat (length out)
              ≤ 4 * Z.of_nat (length bin_data) + 3 * Z.of_nat (S (length ascii_data))
                + (if quad_pos =? 0 then 0 else if quad_pos =? 1 then 3
                   else if quad_pos =? 2 then 2 else 1) ∧
              (Forall is_byte bin_data → Forall is_byte out)).
    { intros x q' l' [Hlen Hbytes]%IH Hcredit. rewrite length_app in Hlen. simpl in Hlen.
      split; [lia|]. intros Hbin. apply Hbytes, Forall_app. split; [done|].
      constructor; [apply uchar_byte|done]. }
    destruct (this_ch =? BASE64_PAD).
    + destruct (2 <=? quad_pos); [|done].
      destruct (4 <=? quad_pos + (pads + 1)); [|by intros [Hlen Hbytes]%IH; split; [lia|]].
      intros [= ->]. split; [|done].
      destruct (quad_pos =? 0), (quad_pos =? 1), (quad_pos =? 2); lia.
    + destruct (64 <=? table_a2b_base64 this_ch); [done|].
      destruct (quad_pos =? 0) eqn:H0.
      { intros [Hlen Hbytes]%IH. simpl in Hlen. split; [lia|done]. }
      destruct (quad_pos =? 1) eqn:H1; [by intros H; apply (Hpush _ _ _ H)|].
      destruct (quad_pos =? 2) eqn:H2; [by intros H; apply (Hpush _ _ _ H)|].
      by intros H; apply (Hpush _ _ _ H).
Qed.

Lemma length_code_points s : length (code_points s) = String.length s.
Proof.
  unfold code_points. rewrite length_fmap.
  induction s as [|c s IH]; simpl; congruence.
Qed.

(** X20. What [b64decode] returns for a string never has more than three
    bytes for four characters of it, and only bytes. So below the 5 MiB
    limit on the payload's length the temporary file never has more than
    3,932,160 bytes: the limit bounds the text, not the audio. *)
Theorem decoded_size s audio_bytes :
  b64decode (JStr s) = Some audio_bytes →
  4 * Z.of_nat (length audio_bytes) ≤ 3 * Z.of_nat (String.length s) ∧
  Forall is_byte audio_bytes ∧
  (Z.of_nat (String.length s) ≤ 5 * 1024 * 1024 →
     Z.of_nat (length audio_bytes) ≤ 3932160).
Proof.
  unfold b64decode, encode_ascii, a2b_base64. cbv zeta.
  destruct (forallb _ _); [|done]. simpl.
  intros [Hlen Hbytes]%a2b_loop_size. rewrite length_code_points in Hlen. simpl in Hlen.
  split; [lia|]. split; [by apply Hbytes|]. lia.
Qed.

Lemma decoded_size_witness :
  4 * Z.of_nat (length [65; 66; 67]) ≤ 3 * Z.of_nat (String.length "QUJD!").
Proof. apply (proj1 (decoded_size "QUJD!" [65; 66; 67] eq_refl)). Defined.

(** The loop does not see the characters outside the alphabet. *)
Lemma a2b_loop_filter ascii_data quad_pos leftchar pads bin_data :
  a2b_loop (filter (λ ch, ch = BASE64_PAD ∨ table_a2b_base64 ch < 64) ascii_data)
    quad_pos leftchar pads bin_data
  = a2b_loop ascii_data quad_pos leftchar pads bin_data.
Proof.
  revert quad_pos leftchar pads bin_data.
  induction ascii_data as [|this_ch ascii_data IH]; intros quad_pos leftchar pads bin_data;
    [done|].
  destruct (decide (this_ch = BASE64_PAD ∨ table_a2b_base64 this_ch < 64)) as [Hkeep|Hdrop].
  - rewrite (filter_cons_True (λ ch, ch = BASE64_PAD ∨ table_a2b_base64 ch < 64)) by done.
    cbn [a2b_loop]. rewrite !IH. done.
  - rewrite (filter_cons_False (λ ch, ch = BASE64_PAD ∨ table_a2b_base64 ch < 64)) by done.
    cbn [a2b_loop]. rewrite IH.
    destruct (this_ch =? BASE64_PAD) eqn:Hpad; [destruct Hdrop; left; lia|].
    destruct (64 <=? table_a2b_base64 this_ch) eqn:Htab; [done|].
    destruct Hdrop. right. lia.
Qed.

Lemma list_ascii_of_string_app s1 s2 :
  String.list_ascii_of_string (s1 +:+ s2)
  = String.list_ascii_of_string s1 ++ String.list_ascii_of_string s2.
Proof. induction s1 as [|c s1 IH]; simpl; [done|]. by rewrite IH. Qed.

(** X21. The decoder skips what it does not know: putting an ASCII
    character that is neither in the alphabet nor [=] (a blank, a line
    break, an exclamation mark) anywhere into a payload changes neither
    whether [b64decode] accepts it nor the bytes it returns. *)
Theorem junk_is_ignored s1 c s2 :
  let ch := Z.of_nat (Ascii.nat_of_ascii c) in
  ch < 128 → ch ≠ BASE64_PAD → table_a2b_base64 ch = 255 →
  b64decode (JStr (s1 +:+ String c s2)) = b64decode (JStr (s1 +:+ s2)).
Proof.
  intros ch Hascii Hpad Htab. subst ch.
  unfold b64decode, encode_ascii, code_points. cbv zeta.
  rewrite !list_ascii_of_string_app. cbn [String.list_ascii_of_string].
  rewrite !fmap_app, fmap_cons, !forallb_app. cbn [forallb].
  rewrite (proj2 (Z.ltb_lt _ 128) Hascii). cbn [andb].
  destruct (forallb _ _ && forallb _ _); [|done]. simpl.
  unfold a2b_base64. rewrite <- a2b_loop_filter. symmetry. rewrite <- a2b_loop_filter.
  rewrite !filter_app.
  rewrite (filter_cons_False (λ ch, ch = BASE64_PAD ∨ table_a2b_base64 ch < 64)); [done|].
  intros [?|Hlt]; [done|]. rewrite Htab in Hlt. lia.
Qed.

Lemma junk_is_ignored_witness :
  b64decode (JStr ("QU" +:+ String " " "JD")) = b64decode (JStr ("QU" +:+ "JD")).
Proof. apply (junk_is_ignored "QU" " " "JD"); [reflexivity|done|reflexivity]. Defined.

Lemma valid_payload_reaches_model_witness :
  Infer 1%nat "/tmp/tmpk3v9qz.wav" (Some [65; 66; 67])
  ∈ trace (transcribe_audio b64decode (calm 1000) (post_audio (JStr (b64encode [65; 66; 67])))
             cold).1.
Proof.
  apply (Base64Facts.valid_payload_reaches_model (calm 1000)
           (post_audio (JStr (b64encode [65; 66; 67]))) cold 1%nat
           [("audio_data"%string, JStr (b64encode [65; 66; 67]))] [65; 66; 67]
           "/tmp/tmpk3v9qz.wav"); try reflexivity; try done.
  repeat constructor; unfold is_byte; lia.
Defined.

End DecoderFacts.

(** ** Schedules, continued *)

Module ScheduleFacts.
Import Whisper Threads.

Lemma population_pos p ts :
  (0 < population p ts)%nat → ∃ j t, ts !! j = Some t ∧ p t = true.
Proof.
  induction ts as [|t ts IH]; simpl; [lia|].
  destruct (p t) eqn:Hp.
  - intros _. by exists 0%nat, t.
  - intros Hpos. destruct IH as (j & t' & Hj & Ht'); [lia|]. by exists (S j), t'.
Qed.

Lemma population_none p ts :
  (∀ j t, ts !! j = Some t → p t = false) → population p ts = 0%nat.
Proof.
  induction ts as [|t ts IH]; intros Hall; simpl; [done|].
  rewrite (Hall 0%nat t eq_refl), IH; [done|].
  intros j t' Hj. by apply (Hall (S j)).
Qed.

Lemma lock_inv_exec schedule c c' : lock_inv c → exec schedule c = Some c' → lock_inv c'.
Proof.
  revert c. induction schedule as [|a schedule IH]; intros c Hinv Hexec; simpl in Hexec.
  - by simplify_eq.
  - destruct (act a c) as [c1|] eqn:Hact; simpl in Hexec; [|done].
    apply (IH c1); [|done].
    destruct a as [i|d]; simpl in Hact;
      [by eapply ThreadsFacts.lock_inv_step|by simplify_eq].
Qed.

(** A thread inside a locked block can always take its next step. *)
Lemma holder_steps j t c :
  threads c !! j = Some t → in_critical_section t = true → is_Some (step j c).
Proof.
  intros Hj Hin. unfold step. rewrite Hj. simpl.
  destruct t as [p o]. simpl in *.
  destruct p; try done; try (by eexists). by destruct o; eexists.
Qed.

(** A thread that cannot step has returned or waits for the lock. *)
Lemma blocked_waits i t c :
  threads c !! i = Some t → step i c = None →
  (∃ r, at_pc t = Returned r) ∨ locked c = true.
Proof.
  intros Hi. unfold step. rewrite Hi. simpl.
  destruct t as [p o]. simpl.
  destruct p; try done; try (destruct (locked c); by eauto); eauto.
  by destruct o.
Qed.

(** X23. [model_lock] is used with discipline by any number of callers of
    [get_model] and sweeps running together, under every schedule: the
    lock is held exactly while one thread is inside a locked block, never
    by two. So no thread waits forever for a lock nobody holds: as long as
    some thread has not returned, some thread can take a step; and when
    all have returned the lock is free. *)
Theorem no_deadlock g now ts schedule c :
  population in_critical_section ts = 0%nat →
  exec schedule (idle g now ts) = Some c →
  population in_critical_section (threads c) = (if locked c then 1 else 0)%nat ∧
  (∀ i t, threads c !! i = Some t → (∀ r, at_pc t ≠ Returned r) →
          ∃ j c', step j c = Some c') ∧
  ((∀ i t, threads c !! i = Some t → ∃ r, at_pc t = Returned r) → locked c = false).
Proof.
  intros Hts Hexec.
  assert (Hinv : lock_inv c) by (by apply (lock_inv_exec schedule (idle g now ts))).
  split; [exact Hinv|]. unfold lock_inv in Hinv. split.
  - intros i t Hi Hrunning.
    destruct (step i c) as [c'|] eqn:Hstep; [by eauto|].
    destruct (blocked_waits i t c Hi Hstep) as [[r Hr]|Hlocked]; [by destruct (Hrunning r)|].
    rewrite Hlocked in Hinv.
    destruct (population_pos in_critical_section (threads c)) as (j & t' & Hj & Hin); [lia|].
    destruct (holder_steps j t' c Hj Hin) as [c' Hc']. eauto.
  - intros Hall. destruct (locked c); [|done].
    rewrite population_none in Hinv; [done|].
    intros j t Hj. destruct (Hall j t Hj) as [r Hr]. unfold in_critical_section.
    by rewrite Hr.
Qed.

Lemma no_deadlock_witness :
  ∃ c, exec [Run 0; Run 1; Run 1] sweeper_and_caller = Some c ∧
       population in_critical_section (threads c) = (if locked c then 1 else 0)%nat.
Proof.
  eexists. split; [reflexivity|].
  apply (no_deadlock (Globals (Some 7%nat) 0) 601
           [Thread Cleanup_test None; Thread GetModel_enter None]
           [Run 0; Run 1; Run 1]); reflexivity.
Defined.

End ScheduleFacts.

(** ** The readiness probe *)

Module HealthFacts.
Import Health.

Lemma SECRET_KEY_not_empty environ : SECRET_KEY environ ≠ ""%string.
Proof.
  unfold SECRET_KEY. destruct (environ !! "SECRET_KEY"%string) as [key|]; [|done].
  by case_bool_decide.
Qed.

(** X26. The readiness probe answers 200 exactly when the configuration
    has a [SECRET_KEY] that is true in Python, and 503 otherwise; nothing
    else is looked at. With the configuration that [config.py] builds the
    key is never empty, whatever the environment holds (an unset or empty
    variable gives the development key), so the probe of the application
    as created always answers 200 "ready". *)
Theorem readiness_check_spec environ config :
  (readiness_check config = (true, 200) ↔
     ApiV1.truthy (default JNull (config !! "SECRET_KEY"%string)) = true) ∧
  (readiness_check config ≠ (true, 200) → readiness_check config = (false, 503)) ∧
  readiness_check (from_object environ config) = (true, 200).
Proof.
  assert (Hspec : ∀ c, readiness_check c
            = if ApiV1.truthy (default JNull (c !! "SECRET_KEY"%string))
              then (true, 200) else (false, 503)).
  { intros c. unfold readiness_check, check_configuration_health, missing_configs.
    destruct (ApiV1.truthy (default JNull (c !! "SECRET_KEY"%string))) eqn:Hkey.
    - by rewrite filter_cons_False, filter_nil by (by rewrite Hkey).
    - by rewrite filter_cons_True by done. }
  rewrite !Hspec. split; [|split].
  - by destruct (ApiV1.truthy _).
  - by destruct (ApiV1.truthy _).
  - unfold from_object. rewrite lookup_insert_eq. simpl.
    rewrite bool_decide_eq_false_2; [done|]. apply SECRET_KEY_not_empty.
Qed.

Lemma readiness_check_spec_witness :
  readiness_check {[ "SECRET_KEY"%string := JStr "" ]} = (false, 503).
Proof.
  apply (proj1 (proj2 (readiness_check_spec ∅ {[ "SECRET_KEY"%string := JStr "" ]}))).
  discriminate.
Defined.

End HealthFacts.

(** ** Overlapping checks *)

Module OverlapFacts.
Import Middleware Overlap.

Lemma exec_app max_requests per_seconds schedule1 schedule2 c :
  exec max_requests per_seconds (schedule1 ++ schedule2) c
  = exec max_requests per_seconds schedule1 c ≫= exec max_requests per_seconds schedule2.
Proof.
  revert c. induction schedule1 as [|i schedule1 IH]; intros c; simpl; [done|].
  destruct (step max_requests per_seconds i c) as [c'|]; simpl; [apply IH|done].
Qed.

Lemma goto_middle done k rest p rc :
  goto (length done) k p (Config rc (done ++ k :: rest))
  = done ++ Check p (client_ip k) (current_time k) :: rest.
Proof.
  unfold goto. simpl. rewrite <- (Nat.add_0_r (length done)). by rewrite insert_app_r.
Qed.

Lemma step_middle max_requests per_seconds done k rest rc :
  step max_requests per_seconds (length done) (Config rc (done ++ k :: rest))
  = let go p rc' :=
      Some (Config rc' (done ++ Check p (client_ip k) (current_time k) :: rest)) in
    match at_pc k with
    | Purge =>
        go Test (<[client_ip k :=
                     clean (current_time k - per_seconds) (get rc (client_ip k))]> rc)
    | Test =>
        if bool_decide (max_requests ≤ Z.of_nat (length (get rc (client_ip k))))
        then go Rejected rc else go Ensure rc
    | Ensure =>
        go Append (if bool_decide (rc !! client_ip k = None)
                   then <[client_ip k := []]> rc else rc)
    | Append => go Accepted (alter (λ w, w ++ [current_time k]) (client_ip k) rc)
    | Accepted | Rejected => None
    end.
Proof.
  unfold step. cbn [checks request_counts]. rewrite list_lookup_middle by done.
  cbn [mbind option_bind]. cbv zeta.
  destruct (at_pc k); try case_bool_decide; by rewrite ?goto_middle.
Qed.

(** A check that runs alone, statement after statement, is one
    [Middleware.allow]. *)
Lemma check_alone max_requests per_seconds done call rest rc :
  ∃ schedule,
    exec max_requests per_seconds schedule
      (Config rc (done ++ Check Purge call.1 call.2 :: rest))
    = Some (Config (allow max_requests per_seconds call.1 call.2 rc).1
              (done ++ returned call (allow max_requests per_seconds call.1 call.2 rc).2
                 :: rest)).
Proof.
  destruct call as [ip now]. rewrite MiddlewareFacts.allow_unfold. cbv zeta.
  cbn [fst snd]. unfold returned. cbn [fst snd].
  destruct (decide (max_requests ≤ Z.of_nat (length (clean (now - per_seconds) (get rc ip)))))
    as [Hfull|Hfree].
  - exists [length done; length done]. rewrite bool_decide_eq_true_2 by done.
    cbn [exec fst snd]. rewrite step_middle. cbn [at_pc client_ip current_time mbind option_bind].
    rewrite step_middle. cbn [at_pc client_ip current_time mbind option_bind].
    rewrite MiddlewareFacts.get_insert_eq. by rewrite bool_decide_eq_true_2 by done.
  - exists [length done; length done; length done; length done].
    rewrite bool_decide_eq_false_2 by done.
    cbn [exec fst snd]. rewrite step_middle. cbn [at_pc client_ip current_time mbind option_bind].
    rewrite step_middle. cbn [at_pc client_ip current_time mbind option_bind].
    rewrite MiddlewareFacts.get_insert_eq. rewrite bool_decide_eq_false_2 by done.
    cbn [mbind option_bind].
    rewrite step_middle. cbn [at_pc client_ip current_time mbind option_bind].
    rewrite lookup_insert_eq, bool_decide_eq_false_2 by done.
    rewrite step_middle. cbn [at_pc client_ip current_time mbind option_bind].
    by rewrite alter_insert_eq.
Qed.

(** Checks that run one after another, each returning before the next
    starts, are a run of the limiter: some schedule takes the arriving
    checks to the dictionary and the decisions of [Middleware.run]. *)
Lemma serial_checks max_requests per_seconds calls :
  ∀ done rc,
    ∃ schedule,
      exec max_requests per_seconds schedule (Config rc (done ++ arrive calls))
      = Some (Config (run max_requests per_seconds calls rc).1
                (done ++ zip_with returned calls (run max_requests per_seconds calls rc).2)).
Proof.
  induction calls as [|call calls IH]; intros done rc.
  - by exists [].
  - destruct (check_alone max_requests per_seconds done call (arrive calls) rc)
      as [schedule1 H1].
    destruct call as [ip now].
    destruct (IH (done ++ [returned (ip, now) (allow max_requests per_seconds ip now rc).2])
                (allow max_requests per_seconds ip now rc).1) as [schedule2 H2].
    exists (schedule1 ++ schedule2). rewrite exec_app.
    change (arrive ((ip, now) :: calls)) with (Check Purge ip now :: arrive calls).
    cbn [fst snd] in H1. rewrite H1. cbn [mbind option_bind].
    rewrite <- app_assoc in H2. cbn [app] in H2. rewrite H2.
    rewrite LimiterFacts.run_cons. cbn [fst snd zip_with]. by rewrite <- app_assoc.
Qed.

(** C2: as the claim was made, it fails. The second call within the window
    is not rejected when it overlaps the first. Two requests of one address a
    second apart, against a limiter of one request per 60 seconds, run
    their statements in step: both purge, both find the window empty, both
    record themselves, and both reach the view. One after the other the
    second is rejected. *)
Lemma overlapping_checks_both_accepted :
  ∃ c, exec 1 60 in_step (Config ∅ (arrive twice)) = Some c ∧
       decision <$> checks c = [Some true; Some true] ∧
       (run 1 60 twice ∅).2 = [true; false].
Proof. eexists. split; [reflexivity|]. by split. Qed.

(** C9: as the claim was made, it fails. After both of two overlapping
    checks have completed, the window of their address holds two timestamps where
    [max_requests] is one, and not in order: the later check overtook the
    earlier one between its test and its append. *)
Lemma overlapping_checks_overfill :
  ∃ c, exec 1 60 overtaking (Config ∅ (arrive twice)) = Some c ∧
       Forall (λ k, is_Some (decision k)) (checks c) ∧
       get (request_counts c) "10.0.0.7" = [101; 100] ∧
       ¬ Z.of_nat (length (get (request_counts c) "10.0.0.7")) ≤ 1.
Proof.
  eexists. split; [reflexivity|]. split; [|split].
  - repeat constructor; by eexists.
  - reflexivity.
  - vm_compute. by intros H.
Qed.

End OverlapFacts.
